(** * C-Calculator: a shallow embedding of [calculator.cpp]

    The interactive console calculator is embedded in four layers:

    - the arithmetic layer ([Operation], [Calculator]) as pure functions
      whose result type [outcome] records a call of [throwException];
    - the [<iostream>] layer ([istream], formatted extraction, [ignore],
      [getline]) as functions on the characters still to be read;
    - the process layer ([world], [proc]) in which [startCalculation] and
      [main] run: it threads the console streams and the static success
      counter, and ends a run at [std::terminate];
    - the memory layer ([Memory]): the [Calculator] objects with [name] as
      the pointer it is, and the arrays that [delete[]] is applied to.

    A [double] is a primitive binary64 float; [pow] of [<cmath>] and the
    text that [cout << double] produces are parameters of the development. *)

From Stdlib Require Import ZArith Lia Bool Ascii String DecimalString.
From Stdlib Require Import Uint63 PrimFloat SpecFloat FloatOps FloatAxioms.
From stdpp Require Import base list.

Local Open Scope string_scope.

(** ** Results of code that may call [throwException] *)

Module Outcome.

(** [Value a]: the call returns [a].
    [Thrown msg]: the call reached [throwException(msg)], which prints
    [msg] on [cerr] and calls [terminate()] (see [Process.throwException]).
    [Undefined]: the call has undefined behaviour in C++ (an out-of-range
    float-to-int conversion, an indeterminate value read, an access outside
    an array). *)
Inductive outcome (A : Type) : Type :=
| Value (a : A)
| Thrown (msg : string)
| Undefined.

Arguments Value {A} a.
Arguments Thrown {A} msg.
Arguments Undefined {A}.

Definition bind {A B} (k : A -> outcome B) (m : outcome A) : outcome B :=
  match m with
  | Value a => k a
  | Thrown msg => Thrown msg
  | Undefined => Undefined
  end.

(** [void throwException(const char* message)], seen from the caller. *)
Definition throwException {A} (message : string) : outcome A := Thrown message.

End Outcome.
Import Outcome.

#[global] Instance outcome_ret : MRet outcome := @Value.
#[global] Instance outcome_bind : MBind outcome := @Outcome.bind.

(** ** The type [double] *)

Module Double.

Definition double := float.

(** The literal [0] and [1] converted to [double]. *)
Definition d0 : double := PrimFloat.zero.
Definition d1 : double := PrimFloat.one.

(** [of_int z]: the conversion of an [int] (or a small integer literal) to
    [double]; exact for every [int]. *)
Definition of_int (z : Z) : double :=
  match z with
  | Z0 => d0
  | Zpos _ => PrimFloat.of_uint63 (Uint63.of_Z z)
  | Zneg _ => PrimFloat.opp (PrimFloat.of_uint63 (Uint63.of_Z (- z)))
  end.

Definition INT_MIN : Z := - 2 ^ 31.
Definition INT_MAX : Z := 2 ^ 31 - 1.

(** The value of a finite float with its fractional part discarded. *)
Definition truncate (d : double) : option Z :=
  match Prim2SF d with
  | S754_zero _ => Some 0%Z
  | S754_finite s m e =>
      let mag := if (0 <=? e)%Z then Z.shiftl (Zpos m) e
                 else Z.shiftr (Zpos m) (- e) in
      Some (if s then (- mag)%Z else mag)
  | S754_infinity _ | S754_nan => None
  end.

(** [(int)d]: truncation toward zero; the behaviour is undefined when the
    truncated value cannot be represented in [int] (C++ [conv.fpint]). *)
Definition to_int (d : double) : outcome Z :=
  match truncate d with
  | Some z => if ((INT_MIN <=? z) && (z <=? INT_MAX))%Z then Value z else Undefined
  | None => Undefined
  end.

(** "[d] is an integer value": finite, with no fractional part. *)
Definition is_integer_value (d : double) : bool :=
  match Prim2SF d with
  | S754_zero _ => true
  | S754_finite _ m e => (0 <=? e)%Z || (Zpos m mod 2 ^ (- e) =? 0)%Z
  | S754_infinity _ | S754_nan => false
  end.

End Double.
Import Double.

(** ** Operations *)

(** The six concrete classes derived from [Operation]. *)
Inductive variant : Type := Add | Subtract | Multiply | Divide | Power | Root.

(** An object of a class derived from [Operation]: its dynamic type and the
    two protected fields. *)
Record Operation : Type := mkOperation {
  op_variant : variant;
  op_name : string;
  op_symbol : string
}.

(** An array of [Operation*]: a slot is [None] while nothing has been
    stored in it, and [Some o] when it points to the object [o]. *)
Abbreviation op_array := (list (option Operation)).

Section Arithmetic.

(** [double pow(double, double)] of [<cmath>]. *)
Variable pow : double -> double -> double.

Definition string_empty (s : string) : bool :=
  match s with EmptyString => true | String _ _ => false end.

(** [Operation::assertValidity] on the fields [name], [symbol]. *)
Definition Operation_assertValidity (name symbol : string) : outcome unit :=
  ((if string_empty name then throwException "Invalid operation name!" else Value tt) ;;
   (if string_empty symbol then throwException "Invalid operation symbol!" else Value tt)).

(** [Operation::copyFrom], on an object of dynamic type [v]. *)
Definition Operation_copyFrom (v : variant) (name symbol : string) : outcome Operation :=
  (Operation_assertValidity name symbol ;;
   Value (mkOperation v name symbol)).

(** [Operation::Operation(string name, string symbol)]. *)
Definition Operation_new (v : variant) (name symbol : string) : outcome Operation :=
  Operation_copyFrom v name symbol.

(** The default constructors [AddOperation()] ... [RootOperation()]. *)
Definition AddOperation : outcome Operation := Operation_new Add "Add" "+".
Definition SubtractOperation : outcome Operation := Operation_new Subtract "Subtract" "-".
Definition MultiplyOperation : outcome Operation := Operation_new Multiply "Multiply" "*".
Definition DivideOperation : outcome Operation := Operation_new Divide "Divide" "/".
Definition PowerOperation : outcome Operation := Operation_new Power "Power" "**".
Definition RootOperation : outcome Operation := Operation_new Root "Root" "V".

(** [createNew]: a copy of the object, through the copy constructors. *)
Definition createNew (o : Operation) : outcome Operation :=
  Operation_copyFrom (op_variant o) (op_name o) (op_symbol o).

Definition getName (o : Operation) : string := op_name o.
Definition getSymbol (o : Operation) : string := op_symbol o.

(** [setName], [setSymbol]: the field is assigned, then checked. *)
Definition setName (name : string) (o : Operation) : outcome Operation :=
  (Operation_assertValidity name (op_symbol o) ;;
   Value (mkOperation (op_variant o) name (op_symbol o))).

Definition setSymbol (symbol : string) (o : Operation) : outcome Operation :=
  (Operation_assertValidity (op_name o) symbol ;;
   Value (mkOperation (op_variant o) (op_name o) symbol)).

(** The six overriders of [execute]. *)
Definition AddOperation_execute (n1 n2 : double) : outcome double :=
  Value (n1 + n2)%float.

Definition SubtractOperation_execute (n1 n2 : double) : outcome double :=
  Value (n1 - n2)%float.

Definition MultiplyOperation_execute (n1 n2 : double) : outcome double :=
  Value (n1 * n2)%float.

Definition DivideOperation_execute (n1 n2 : double) : outcome double :=
  if (n2 =? d0)%float then throwException "Cannot divide by zero!"
  else Value (n1 / n2)%float.

Definition PowerOperation_execute (n1 n2 : double) : outcome double :=
  if (n1 =? d0)%float && (n2 =? d0)%float
  then throwException "Cannot raise 0 to the power of 0!"
  else Value (pow n1 n2).

(** In the second test [(int)n2] is evaluated only when [n1 < 0] holds. *)
Definition RootOperation_execute (n1 n2 : double) : outcome double :=
  if (n1 <? d0)%float && (n2 <? d0)%float
  then throwException "Cannot take negative root of negative number!"
  else
    (fractional ←
       (if (n1 <? d0)%float
        then (i ← to_int n2; Value (negb (of_int i =? n2)%float))
        else Value false);
     if (fractional : bool)
     then throwException "Cannot take fractional root of negative number"
     else Value (pow n1 (d1 / n2)%float)).

(** Virtual dispatch of [execute] on the dynamic type. *)
Definition execute (o : Operation) (n1 n2 : double) : outcome double :=
  match op_variant o with
  | Add => AddOperation_execute n1 n2
  | Subtract => SubtractOperation_execute n1 n2
  | Multiply => MultiplyOperation_execute n1 n2
  | Divide => DivideOperation_execute n1 n2
  | Power => PowerOperation_execute n1 n2
  | Root => RootOperation_execute n1 n2
  end.

(** ** The class [Calculator] *)

(** [#define MAX_OPERATORS 16] *)
Definition MAX_OPERATORS : nat := 16.

(** The characters of a [char] array before its first null character:
    the text a [const char*] to the array denotes. *)
Fixpoint c_string (chars : string) : string :=
  match chars with
  | EmptyString => EmptyString
  | String c rest =>
      if Ascii.eqb c "000"%char then EmptyString else String c (c_string rest)
  end.

(** [int strlen(const char* str)]: the number of characters before the
    terminating null character. *)
Fixpoint strlen (str : string) : Z :=
  match str with
  | EmptyString => 0
  | String _ rest => 1 + strlen rest
  end.

(** The non-static data members. [name] is [None] for [nullptr]. The
    counts are of type [size_t]; every increment below is guarded by a
    bounds test, so no count wraps around and [nat] holds them. *)
Record Calculator : Type := mkCalculator {
  name : option string;
  numberOfSupportedOperations : nat;
  capacityForOperations : nat;
  operations : op_array
}.

(** [Calculator::assertValidity] on the fields [name], [capacityForOperations]. *)
Definition assertValidity (name : option string) (capacityForOperations : nat)
  : outcome unit :=
  (match name with
   | None => throwException "Invalid calculator name!"
   | Some str =>
       if (strlen str =? 0)%Z then throwException "Invalid calculator name!"
       else Value tt
   end) ;;
  (if (capacityForOperations =? 0)%nat then
     throwException "Capacity for operations cannot be zero!"
   else Value tt).

(** [operations[i]]: reading outside the array, or reading a slot that
    was never written, is undefined. *)
Definition read_slot (a : op_array) (i : nat) : outcome Operation :=
  match a !! i with
  | Some (Some o) => Value o
  | Some None | None => Undefined
  end.

(** [operations[i] = p]: writing outside the array is undefined. *)
Definition write_slot (a : op_array) (i : nat) (o : Operation) : outcome op_array :=
  if decide (i < length a) then Value (<[i := Some o]> a) else Undefined.

(** The loop of [copyFrom]: [todo] iterations remain, the next index is [i]. *)
Fixpoint copy_slots (src dst : op_array) (i todo : nat) : outcome op_array :=
  match todo with
  | O => Value dst
  | S todo' =>
      o ← read_slot src i;
      dst' ← write_slot dst i o;
      copy_slots src dst' (S i) todo'
  end.

(** [Calculator::copyFrom]. *)
Definition copyFrom (name : option string) (numberOfSupportedOperations : nat)
    (capacityForOperations : nat) (operations : op_array) : outcome Calculator :=
  let fresh := replicate capacityForOperations None in
  slots ← copy_slots operations fresh 0 numberOfSupportedOperations;
  assertValidity name capacityForOperations ;;
  Value (mkCalculator name numberOfSupportedOperations capacityForOperations slots).

(** The loop of [calculate], from index [i] with [todo] iterations left. *)
Fixpoint calculate_from (ops : op_array) (n1 n2 : double) (op : string)
    (i todo : nat) : outcome double :=
  match todo with
  | O => Value d0
  | S todo' =>
      o ← read_slot ops i;
      if String.eqb (getSymbol o) op then execute o n1 n2
      else calculate_from ops n1 n2 op (S i) todo'
  end.

(** [Calculator::calculate]. *)
Definition calculate (c : Calculator) (n1 n2 : double) (op : string) : outcome double :=
  calculate_from (operations c) n1 n2 op 0 (numberOfSupportedOperations c).

(** [Calculator::Calculator()]. *)
Definition Calculator_default : outcome Calculator :=
  let name := Some "" in
  let operations := replicate 2 None in
  let numberOfSupportedOperations := 0 in
  let capacityForOperations := 2 in
  assertValidity name capacityForOperations ;;
  Value (mkCalculator name numberOfSupportedOperations capacityForOperations operations).

(** [Calculator::Calculator(const char* name, size_t n, Operation** ops)]. *)
Definition Calculator_new (name : option string) (n : nat) (ops : op_array)
  : outcome Calculator :=
  copyFrom name n MAX_OPERATORS ops.

(** [Calculator::Calculator(const Calculator& other)]. *)
Definition Calculator_copy (other : Calculator) : outcome Calculator :=
  copyFrom (name other) (numberOfSupportedOperations other)
    (capacityForOperations other) (operations other).

(** The first two statements of [addOperation]: the capacity test and
    [operations[numberOfSupportedOperations++] = op->createNew()]. The
    result is the object the method was called on, after the statements. *)
Definition addOperation_append (op : Operation) (this : Calculator) : outcome Calculator :=
  (if (numberOfSupportedOperations this =? capacityForOperations this)%nat
   then throwException "Capacity for operations exceeded!"
   else Value tt) ;;
  clone ← createNew op;
  slots ← write_slot (operations this) (numberOfSupportedOperations this) clone;
  Value (mkCalculator (name this) (S (numberOfSupportedOperations this))
           (capacityForOperations this) slots).

(** [Calculator::addOperation]: the two statements above, then
    [return *new Calculator()]. The result pairs the object the method was
    called on with the object the returned reference denotes. *)
Definition addOperation (op : Operation) (this : Calculator)
  : outcome (Calculator * Calculator) :=
  this' ← addOperation_append op this;
  fresh ← Calculator_default;
  Value (this', fresh).

(** The operations stored in a calculator, in slot order, when each of the
    first [numberOfSupportedOperations] slots holds one. *)
Fixpoint stored_from (ops : op_array) (i todo : nat) : option (list Operation) :=
  match todo with
  | O => Some []
  | S todo' =>
      match ops !! i with
      | Some (Some o) => cons o <$> stored_from ops (S i) todo'
      | _ => None
      end
  end.

Definition stored (c : Calculator) : option (list Operation) :=
  stored_from (operations c) 0 (numberOfSupportedOperations c).

(** The class invariant of the specification. *)
Definition name_nonempty (c : Calculator) : Prop :=
  exists str, name c = Some str /\ str <> "".

Record invariant (c : Calculator) : Prop := mkInvariant {
  inv_name : name_nonempty c;
  inv_capacity : 0 < capacityForOperations c;
  inv_count : numberOfSupportedOperations c <= capacityForOperations c
}.

End Arithmetic.

(** ** The input stream of [<iostream>]

  [cin] is the text that has not been read yet together with the two
  state flags the program can observe. The extractors follow the C++11
  rules as implemented by libstdc++ in the classic locale. *)

Module Stream.

Record istream : Type := mkIstream {
  buffer : string;
  eofbit : bool;
  failbit : bool
}.

Definition good (s : istream) : bool := negb (eofbit s || failbit s).
Definition fail (s : istream) : bool := failbit s.

(** [cin.clear()] *)
Definition clear (s : istream) : istream := mkIstream (buffer s) false false.

Definition newline : ascii := "010"%char.

(** The text of one newline character. *)
Definition nl : string := String newline EmptyString.

(** [isspace] in the classic locale. *)
Definition isspace (c : ascii) : bool :=
  let n := N_of_ascii c in
  ((n =? 32) || ((9 <=? n) && (n <=? 13)))%N.

Fixpoint skipws (b : string) : string :=
  match b with
  | EmptyString => EmptyString
  | String c rest => if isspace c then skipws rest else b
  end.

(** The sentry of a formatted input function: a stream that is not good
    gets [failbit]; otherwise white space is skipped, and reaching the end
    of the input sets [eofbit] and [failbit]. *)
Definition sentry (s : istream) : istream * bool :=
  if good s then
    match skipws (buffer s) with
    | EmptyString => (mkIstream EmptyString true true, false)
    | String _ _ as b => (mkIstream b false false, true)
    end
  else (mkIstream (buffer s) (eofbit s) true, false).

(** The characters after the first newline of [b], and whether the end of
    the input was reached before a newline. *)
Fixpoint skip_line (b : string) : string * bool :=
  match b with
  | EmptyString => (EmptyString, true)
  | String c rest => if Ascii.eqb c newline then (rest, false) else skip_line rest
  end.

(** [cin.ignore(numeric_limits<streamsize>::max(), '\n')] *)
Definition ignore (s : istream) : istream :=
  if good s then
    let '(rest, eof) := skip_line (buffer s) in mkIstream rest eof false
  else mkIstream (buffer s) (eofbit s) true.

(** The loop of [getline]: [room] more characters may be stored. The
    result is the stored text, the rest of the input, [eofbit], [failbit]
    and whether a character was extracted. *)
Fixpoint getline_loop (b : string) (room : nat) : string * string * bool * bool * bool :=
  match b with
  | EmptyString => (EmptyString, EmptyString, true, false, false)
  | String c rest =>
      if Ascii.eqb c newline then (EmptyString, rest, false, false, true)
      else match room with
           | O => (EmptyString, b, false, true, false)
           | S room' =>
               let '(line, rest', eof, fl, _) := getline_loop rest room' in
               (String c line, rest', eof, fl, true)
           end
  end.

(** [cin.getline(p, n)] with [n >= 1]: the text stored in [p]. *)
Definition getline (n : nat) (s : istream) : string * istream :=
  if good s then
    let '(line, rest, eof, fl, extracted) := getline_loop (buffer s) (n - 1) in
    (line, mkIstream rest eof (fl || negb extracted))
  else (EmptyString, mkIstream (buffer s) (eofbit s) true).

(** The characters up to the next white space, and the rest. *)
Fixpoint get_word (b : string) : string * string :=
  match b with
  | EmptyString => (EmptyString, EmptyString)
  | String c rest =>
      if isspace c then (EmptyString, b)
      else let '(w, rest') := get_word rest in (String c w, rest')
  end.

(** [cin >> str] for a [std::string] whose content is [cur]. *)
Definition extract_string (cur : string) (s : istream) : string * istream :=
  let '(s1, ok) := sentry s in
  if ok then
    let '(w, rest) := get_word (buffer s1) in
    (w, mkIstream rest (string_empty rest) false)
  else (cur, s1).

(** *** Numbers *)

Definition digit_of (c : ascii) : option N :=
  let n := N_of_ascii c in
  if ((48 <=? n) && (n <=? 57))%N then Some (n - 48)%N else None.

(** The longest run of decimal digits at the front of [b]. *)
Fixpoint take_digits (b : string) : list N * string :=
  match b with
  | EmptyString => ([], EmptyString)
  | String c rest =>
      match digit_of c with
      | Some d => let '(ds, rest') := take_digits rest in (d :: ds, rest')
      | None => ([], b)
      end
  end.

Definition digits_value (ds : list N) : N :=
  fold_left (fun acc d => (10 * acc + d)%N) ds 0%N.

(** An optional sign: whether it is [-], and the rest. *)
Definition take_sign (b : string) : bool * string :=
  match b with
  | String c rest =>
      if Ascii.eqb c "-" then (true, rest)
      else if Ascii.eqb c "+" then (false, rest)
      else (false, b)
  | EmptyString => (false, b)
  end.

(** What [num_get] accumulates for an integer in base ten. *)
Definition lex_integer (b : string) : bool * list N * string :=
  let '(neg, b1) := take_sign b in
  let '(ds, b2) := take_digits b1 in
  (neg, ds, b2).

Definition SIZE_MAX : N := 2 ^ 64 - 1.
Definition LONG_MAX : Z := 2 ^ 63 - 1.
Definition LONG_MIN : Z := - 2 ^ 63.
Definition SHRT_MAX : Z := 32767.
Definition SHRT_MIN : Z := - 32768.

(** [cin >> n] for a [size_t] whose content is [cur] ([None] while
    indeterminate). No digit: zero is stored and [failbit] set. A value
    above [SIZE_MAX]: [SIZE_MAX] is stored and [failbit] set. A minus sign
    negates the value modulo [2^64]. *)
Definition extract_size_t (cur : option N) (s : istream) : option N * istream :=
  let '(s1, ok) := sentry s in
  if ok then
    let '(neg, ds, rest) := lex_integer (buffer s1) in
    let eof := string_empty rest in
    match ds with
    | [] => (Some 0%N, mkIstream rest eof true)
    | _ :: _ =>
        let v := digits_value ds in
        if (SIZE_MAX <? v)%N then (Some SIZE_MAX, mkIstream rest eof true)
        else (Some (if neg then ((2 ^ 64 - v) mod 2 ^ 64)%N else v),
              mkIstream rest eof false)
    end
  else (cur, s1).

(** [cin >> n] for a [short]: a [long] is read, then narrowed. *)
Definition extract_short (cur : option Z) (s : istream) : option Z * istream :=
  let '(s1, ok) := sentry s in
  if ok then
    let '(neg, ds, rest) := lex_integer (buffer s1) in
    let eof := string_empty rest in
    let '(l, fl) :=
      match ds with
      | [] => (0%Z, true)
      | _ :: _ =>
          let v := Z.of_N (digits_value ds) in
          if neg then (if (- LONG_MIN <? v)%Z then (LONG_MIN, true) else ((- v)%Z, false))
          else (if (LONG_MAX <? v)%Z then (LONG_MAX, true) else (v, false))
      end in
    if (l <? SHRT_MIN)%Z then (Some SHRT_MIN, mkIstream rest eof true)
    else if (SHRT_MAX <? l)%Z then (Some SHRT_MAX, mkIstream rest eof true)
    else (Some l, mkIstream rest eof fl)
  else (cur, s1).

(** What [num_get] accumulates for a floating-point number: sign, integer
    digits, the digits after a decimal point if there is one, and an
    exponent (sign, digits) if [e] or [E] follows at least one digit. *)
Definition lex_float (b : string)
  : bool * list N * option (list N) * option (bool * list N) * string :=
  let '(neg, b1) := take_sign b in
  let '(int_ds, b2) := take_digits b1 in
  let '(frac, b3) :=
    match b2 with
    | String c rest =>
        if Ascii.eqb c "." then let '(ds, r) := take_digits rest in (Some ds, r)
        else (None, b2)
    | EmptyString => (None, b2)
    end in
  let mantissa := (int_ds ++ default [] frac)%list in
  let '(expo, b4) :=
    match mantissa, b3 with
    | _ :: _, String c rest =>
        if Ascii.eqb c "e" || Ascii.eqb c "E" then
          let '(eneg, r1) := take_sign rest in
          let '(eds, r2) := take_digits r1 in
          (Some (eneg, eds), r2)
        else (None, b3)
    | _, _ => (None, b3)
    end in
  (neg, int_ds, frac, expo, b4).

(** The binary64 number nearest to [(-1)^neg * m * 10^e] (ties to even). *)
Definition decimal_to_SF (neg : bool) (m : N) (e : Z) : spec_float :=
  match m with
  | N0 => S754_zero neg
  | Npos p =>
      if (0 <=? e)%Z then
        binary_normalize prec emax
          (if neg then Zneg (p * Z.to_pos (10 ^ e)) else Zpos (p * Z.to_pos (10 ^ e)))
          0 false
      else SFdiv prec emax (S754_finite neg p 0) (S754_finite false (Z.to_pos (10 ^ (- e))) 0)
  end.

Definition DBL_MAX : double := SF2Prim (S754_finite false (2 ^ 53 - 1) 971).

(** [cin >> d] for a [double] whose content is [cur] ([None] while
    indeterminate). Text that is not a number stores zero and sets
    [failbit]; a number too large for a [double] stores the largest finite
    value of its sign and sets [failbit]. *)
Definition extract_double (cur : option double) (s : istream) : option double * istream :=
  let '(s1, ok) := sentry s in
  if ok then
    let '(neg, int_ds, frac, expo, rest) := lex_float (buffer s1) in
    let eof := string_empty rest in
    let mantissa := (int_ds ++ default [] frac)%list in
    let e10 :=
      match expo with
      | Some (eneg, eds) =>
          let v := Z.of_N (digits_value eds) in if eneg then (- v)%Z else v
      | None => 0%Z
      end in
    let well_formed :=
      match mantissa with [] => false | _ :: _ => true end
      && match expo with Some (_, []) => false | _ => true end in
    if well_formed then
      match decimal_to_SF neg (digits_value mantissa)
              (e10 - Z.of_nat (length (default [] frac))) with
      | S754_infinity sgn =>
          (Some (if sgn then (- DBL_MAX)%float else DBL_MAX), mkIstream rest eof true)
      | x => (Some (SF2Prim x), mkIstream rest eof false)
      end
    else (Some d0, mkIstream rest eof true)
  else (cur, s1).

End Stream.
Import Stream.

(** ** The running process *)

Module Process.

(** What a run can observe and change: the three console streams and the
    static member [Calculator::numberOfSuccessfulCalculations]. *)
Record world : Type := mkWorld {
  cin : istream;
  cout : string;
  cerr : string;
  numberOfSuccessfulCalculations : double
}.

(** [Returned a w]: the code returned [a] in world [w].
    [Terminated w]: [std::terminate] was called in world [w].
    [UndefinedBehaviour]: the code did something C++ leaves undefined.
    [OutOfFuel]: a loop needed more iterations than it was given. *)
Inductive run (A : Type) : Type :=
| Returned (a : A) (w : world)
| Terminated (w : world)
| UndefinedBehaviour
| OutOfFuel.

Arguments Returned {A} a w.
Arguments Terminated {A} w.
Arguments UndefinedBehaviour {A}.
Arguments OutOfFuel {A}.

Definition proc (A : Type) : Type := world -> run A.

Definition ret {A} (a : A) : proc A := fun w => Returned a w.

Definition bind {A B} (k : A -> proc B) (m : proc A) : proc B :=
  fun w =>
    match m w with
    | Returned a w' => k a w'
    | Terminated w' => Terminated w'
    | UndefinedBehaviour => UndefinedBehaviour
    | OutOfFuel => OutOfFuel
    end.

Definition set_cin (s : istream) (w : world) : world :=
  mkWorld s (cout w) (cerr w) (numberOfSuccessfulCalculations w).

(** [cout << s] for a string [s]. *)
Definition print (s : string) : proc unit :=
  fun w => Returned tt (mkWorld (cin w) (cout w ++ s) (cerr w)
                          (numberOfSuccessfulCalculations w)).

(** [cout << endl] *)
Definition endl : proc unit := print nl.

(** [void throwException(const char* message)]:
    [cerr << message << endl; terminate();] *)
Definition throwException {A} (message : string) : proc A :=
  fun w => Terminated (mkWorld (cin w) (cout w)
                         (cerr w ++ message ++ nl)
                         (numberOfSuccessfulCalculations w)).

(** Running code of the arithmetic layer inside the process. *)
Definition lift {A} (o : outcome A) : proc A :=
  match o with
  | Value a => ret a
  | Thrown message => throwException message
  | Undefined => fun _ => UndefinedBehaviour
  end.

(** Reading a local variable: an indeterminate value must not be read. *)
Definition load {A} (x : option A) : proc A :=
  match x with
  | Some a => ret a
  | None => fun _ => UndefinedBehaviour
  end.

(** An extraction from [cin], or a member function that changes it. *)
Definition from_cin {A} (f : istream -> A * istream) : proc A :=
  fun w => let '(a, s) := f (cin w) in Returned a (set_cin s w).

Definition on_cin (f : istream -> istream) : proc unit :=
  fun w => Returned tt (set_cin (f (cin w)) w).

Definition cin_fail : proc bool := fun w => Returned (fail (cin w)) w.

(** [numberOfSuccessfulCalculations++] *)
Definition count_success : proc unit :=
  fun w => Returned tt (mkWorld (cin w) (cout w) (cerr w)
                          (numberOfSuccessfulCalculations w + d1)%float).

End Process.
Import Process.

#[global] Instance proc_ret : MRet proc := @Process.ret.
#[global] Instance proc_bind : MBind proc := @Process.bind.

(** ** The member functions that use the console, and [main] *)

Section Console.

Variable pow : double -> double -> double.

(** The characters [cout << d] writes for a [double] [d]. *)
Variable put_double : double -> string.

(** The characters [cout << n] writes for an [int] [n >= 0]. *)
Definition put_int (n : nat) : string := NilEmpty.string_of_uint (Nat.to_uint n).

(** [Calculator::listSupportedOperations]: the loop from index [i]. *)
Fixpoint listSupportedOperations_from (ops : op_array) (i todo : nat) : proc unit :=
  match todo with
  | O => mret tt
  | S todo' =>
      o ← lift (read_slot ops i);
      print (getSymbol o) ;; print " - " ;; print (getName o) ;; endl ;;
      listSupportedOperations_from ops (S i) todo'
  end.

Definition listSupportedOperations (c : Calculator) : proc unit :=
  listSupportedOperations_from (operations c) 0 (numberOfSupportedOperations c).

(** [Calculator::listInputFormat] *)
Definition listInputFormat (c : Calculator) : proc unit :=
  print "<num1> <symbol> <num2> <symbol> <num3> ... <numN> =" ;; endl ;;
  print "Please make sure to include spaces between each number and operator." ;; endl.

(** The [while(true)] loop of [startCalculation]. The locals [result] and
    [num2] are [None] while indeterminate. *)
Fixpoint startCalculation_loop (fuel : nat) (c : Calculator)
    (result num2 : option double) (op : string) : proc (option double) :=
  match fuel with
  | O => fun _ => OutOfFuel
  | S fuel' =>
      op ← from_cin (extract_string op);
      if String.eqb op "=" then mret result
      else
        num2 ← from_cin (extract_double num2);
        n1 ← load result;
        n2 ← load num2;
        r ← lift (calculate pow c n1 n2 op);
        startCalculation_loop fuel' c (Some r) num2 op
  end.

(** [Calculator::startCalculation] *)
Definition startCalculation (fuel : nat) (c : Calculator) : proc unit :=
  result ← from_cin (extract_double None);
  result ← startCalculation_loop fuel c result None EmptyString;
  count_success ;;
  r ← load result;
  print (put_double r) ;; endl.

(** [Calculator::getNumberOfSuccessfulCalculations] *)
Definition getNumberOfSuccessfulCalculations (c : Calculator) : proc double :=
  fun w => Returned (numberOfSuccessfulCalculations w) w.

(** [Operation* createOperation(string operationSymbol)] *)
Definition createOperation (operationSymbol : string) : outcome Operation :=
  if String.eqb operationSymbol "+" then AddOperation
  else if String.eqb operationSymbol "-" then SubtractOperation
  else if String.eqb operationSymbol "*" then MultiplyOperation
  else if String.eqb operationSymbol "/" then DivideOperation
  else if String.eqb operationSymbol "**" then PowerOperation
  else if String.eqb operationSymbol "V" then RootOperation
  else Outcome.throwException "Invalid operator!".

(** *** [main] *)

(** The [do ... while(true)] loop that reads [numberOfOperations]. *)
Fixpoint main_count_loop (fuel : nat) (numberOfOperations : option N) : proc N :=
  match fuel with
  | O => fun _ => OutOfFuel
  | S fuel' =>
      print "Enter number of operations: " ;;
      numberOfOperations ← from_cin (extract_size_t numberOfOperations);
      failed ← cin_fail;
      if (failed : bool) then
        print "Couldn't convert to number!" ;; endl ;;
        on_cin clear ;; on_cin ignore ;;
        main_count_loop fuel' numberOfOperations
      else
        n ← load numberOfOperations;
        if (N.of_nat MAX_OPERATORS <? n)%N then
          print "Exceeded operator capacity of " ;; print (put_int MAX_OPERATORS) ;;
          print "!" ;; endl ;;
          on_cin clear ;; on_cin ignore ;;
          main_count_loop fuel' numberOfOperations
        else mret n
  end.

Definition valid_symbol (operationSymbol : string) : bool :=
  String.eqb operationSymbol "+" || String.eqb operationSymbol "-"
  || String.eqb operationSymbol "*" || String.eqb operationSymbol "/"
  || String.eqb operationSymbol "**" || String.eqb operationSymbol "V".

(** [operationList[i] = operationSymbol]: the array has [MAX_OPERATORS]
    elements. *)
Definition write_symbol (operationList : list string) (i : nat) (sym : string)
  : outcome (list string) :=
  if decide (i < length operationList) then Value (<[i := sym]> operationList)
  else Undefined.

(** The [for] loop that reads one batch of symbols; the result pairs the
    array with the flag [valid]. *)
Fixpoint main_batch (operationList : list string) (operationSymbol : string)
    (i todo : nat) : proc (list string * bool) :=
  match todo with
  | O => mret (operationList, true)
  | S todo' =>
      operationSymbol ← from_cin (extract_string operationSymbol);
      if valid_symbol operationSymbol then
        operationList ← lift (write_symbol operationList i operationSymbol);
        main_batch operationList operationSymbol (S i) todo'
      else
        print "Invalid operator!" ;; endl ;;
        mret (operationList, false)
  end.

(** The [while(true)] loop around the batch. *)
Fixpoint main_symbols_loop (fuel : nat) (numberOfOperations : nat)
    (operationList : list string) : proc (list string) :=
  match fuel with
  | O => fun _ => OutOfFuel
  | S fuel' =>
      '(operationList, valid) ← main_batch operationList EmptyString 0 numberOfOperations;
      on_cin clear ;; on_cin ignore ;;
      if (valid : bool) then mret operationList
      else main_symbols_loop fuel' numberOfOperations operationList
  end.

(** The loop [ops[i] = createOperation(operationList[i])]. *)
Fixpoint main_create (operationList : list string) (ops : op_array) (i todo : nat)
  : outcome op_array :=
  match todo with
  | O => Value ops
  | S todo' =>
      sym ← (match operationList !! i with
             | Some sym => Value sym
             | None => Undefined
             end);
      o ← createOperation sym;
      ops ← write_slot ops i o;
      main_create operationList ops (S i) todo'
  end.

(** The menu loop. *)
Fixpoint main_menu_loop (fuel : nat) (calc : Calculator) : proc unit :=
  match fuel with
  | O => fun _ => OutOfFuel
  | S fuel' =>
      print "1. List supported operations" ;; endl ;;
      print "2. List input format" ;; endl ;;
      print "3. Start calculation" ;; endl ;;
      print "4. Exit" ;; endl ;;
      chosenOption ← from_cin (extract_short None);
      chosenOption ← load chosenOption;
      (match chosenOption with
       | 1 => listSupportedOperations calc
       | 2 => listInputFormat calc
       | 3 => startCalculation fuel' calc
       | 4 => mret tt
       | _ =>
           print "Invalid option, try again." ;; endl ;;
           on_cin clear ;; on_cin ignore
       end)%Z ;;
      if (chosenOption =? 4)%Z then mret tt else main_menu_loop fuel' calc
  end.

(** [main] from the construction of the operations to the end of the menu
    loop, given the name, the count and the symbols read so far. *)
Definition main_run (fuel : nat) (calculatorName : string)
    (numberOfOperations : nat) (operationList : list string) : proc unit :=
  ops ← lift (main_create operationList (replicate MAX_OPERATORS None) 0
                numberOfOperations);
  calc ← lift (Calculator_new (Some calculatorName) numberOfOperations ops);
  main_menu_loop fuel calc.

(** The legend printed before the symbols are read. *)
Definition main_legend : proc unit :=
  print "Enter operations: " ;; endl ;;
  print "+ - add" ;; endl ;;
  print "- - subtract" ;; endl ;;
  print "* - multiply" ;; endl ;;
  print "/ - divide" ;; endl ;;
  print "** - power" ;; endl ;;
  print "V - root" ;; endl.

(** [main] from the legend on, given the name and the count read so far. *)
Definition main_configured (fuel : nat) (calculatorName : string)
    (numberOfOperations : nat) : proc unit :=
  main_legend ;;
  operationList ← main_symbols_loop fuel numberOfOperations
                    (replicate MAX_OPERATORS EmptyString);
  main_run fuel calculatorName numberOfOperations operationList.

(** [main] up to the end of the menu loop. [getline] stores the characters
    of the line in the array [calculatorName]; from there on the name is
    the C string in that array. The [delete] statements that follow the
    menu loop act on the store and are [Memory.main_exit] below. *)
Definition main (fuel : nat) : proc unit :=
  print "Enter calculator's name: " ;;
  calculatorName ← from_cin (getline 256);
  numberOfOperations ← main_count_loop fuel None;
  main_configured fuel (c_string calculatorName) (N.to_nat numberOfOperations).

End Console.

(** ** Objects in memory

  The member functions above take a calculator by the values of its
  members, the name being the text its pointer refers to. This layer keeps
  what those values leave out. The member [name] is a pointer to an array
  of characters that the calculator does not allocate: [copyFrom] stores
  the pointer it is given, so a copy shares the array with its original
  and with the caller, and [operator=] and the destructor apply
  [delete[]] to it. The array [operations] is allocated by [copyFrom] for
  the object alone, so it stays a value here and its [delete[]] has
  nothing to go wrong. *)

Module Memory.

(** A pointer to an array made by [new char[n]]; [None] is [nullptr]. *)
Definition pointer : Type := option nat.

(** The non-static data members of a [Calculator] object. *)
Record object : Type := mkObject {
  name : pointer;
  numberOfSupportedOperations : nat;
  capacityForOperations : nat;
  operations : op_array
}.

(** The arrays of characters, each with its text as a C string while it is
    live and [None] once it was deleted, and the [Calculator] objects,
    [None] once destroyed. A pointer is an index into the first list, the
    address of an object an index into the second. *)
Record store : Type := mkStore {
  arrays : list (option string);
  objects : list (option object)
}.

(** [new char[n]], filled with [text]. *)
Definition new_array (text : string) (m : store) : pointer * store :=
  (Some (length (arrays m)), mkStore (arrays m ++ [Some text]) (objects m)).

(** The text at [p], as [strlen(p)] reads it: reading an array that was
    deleted is undefined. The code tests for [nullptr] before it reads. *)
Definition text_at (p : pointer) (m : store) : outcome (option string) :=
  match p with
  | None => Value None
  | Some a =>
      match arrays m !! a with
      | Some (Some text) => Value (Some text)
      | Some None | None => Undefined
      end
  end.

(** [delete[] p]: no effect on [nullptr]; undefined on an array that was
    deleted before. *)
Definition delete_array (p : pointer) (m : store) : outcome store :=
  match p with
  | None => Value m
  | Some a =>
      match arrays m !! a with
      | Some (Some _) => Value (mkStore (<[a := None]> (arrays m)) (objects m))
      | Some None | None => Undefined
      end
  end.

(** The object at the address [this]; there is none once it was destroyed. *)
Definition object_at (this : nat) (m : store) : outcome object :=
  match objects m !! this with
  | Some (Some o) => Value o
  | Some None | None => Undefined
  end.

(** A new object holding [o]: its address and the store. *)
Definition place (o : object) (m : store) : nat * store :=
  (length (objects m), mkStore (arrays m) (objects m ++ [Some o])%list).

Definition replace (this : nat) (o : option object) (m : store) : store :=
  mkStore (arrays m) (<[this := o]> (objects m)).

(** [Calculator::assertValidity]: [strlen(name)] reads the array. *)
Definition assertValidity (name : pointer) (capacityForOperations : nat) (m : store)
  : outcome unit :=
  text ← text_at name m;
  assertValidity text capacityForOperations.

(** [Calculator::copyFrom]: [this->name = name] copies the pointer. *)
Definition copyFrom (name : pointer) (numberOfSupportedOperations : nat)
    (capacityForOperations : nat) (operations : op_array) (m : store)
  : outcome object :=
  let fresh := replicate capacityForOperations None in
  slots ← copy_slots operations fresh 0 numberOfSupportedOperations;
  assertValidity name capacityForOperations m ;;
  Value (mkObject name numberOfSupportedOperations capacityForOperations slots).

(** [Calculator::Calculator(const char* name, size_t n, Operation** ops)]
    for a new object. *)
Definition Calculator_new (name : pointer) (n : nat) (ops : op_array) (m : store)
  : outcome (nat * store) :=
  o ← copyFrom name n MAX_OPERATORS ops m;
  Value (place o m).

(** [Calculator::Calculator(const Calculator& other)] for a new object. *)
Definition Calculator_copy (other : nat) (m : store) : outcome (nat * store) :=
  o ← object_at other m;
  c ← copyFrom (name o) (numberOfSupportedOperations o)
        (capacityForOperations o) (operations o) m;
  Value (place c m).

(** [Calculator::operator=]. *)
Definition assign (this other : nat) (m : store) : outcome store :=
  if (this =? other)%nat then Value m
  else
    t ← object_at this m;
    o ← object_at other m;
    m ← delete_array (name t) m;
    c ← copyFrom (name o) (numberOfSupportedOperations o)
          (capacityForOperations o) (operations o) m;
    Value (replace this (Some c) m).

(** [Calculator::~Calculator]. *)
Definition destroy (this : nat) (m : store) : outcome store :=
  t ← object_at this m;
  m ← delete_array (name t) m;
  Value (replace this None m).

(** The first two statements of [Calculator::addOperation]. *)
Definition addOperation_append (op : Operation) (this : nat) (m : store)
  : outcome store :=
  t ← object_at this m;
  (if (numberOfSupportedOperations t =? capacityForOperations t)%nat
   then Outcome.throwException "Capacity for operations exceeded!"
   else Value tt) ;;
  clone ← createNew op;
  slots ← write_slot (operations t) (numberOfSupportedOperations t) clone;
  Value (replace this
           (Some (mkObject (name t) (S (numberOfSupportedOperations t))
                    (capacityForOperations t) slots)) m).

(** The statements of [main] after the menu loop:
    [delete[] calculatorName; delete calc;]. The deletions of the
    operations that follow them do not touch this store. *)
Definition main_exit (calculatorName : pointer) (calc : nat) (m : store)
  : outcome store :=
  m ← delete_array calculatorName m;
  destroy calc m.

(** The members of the object at [this] by value, the name read through
    its pointer. *)
Definition members (this : nat) (m : store) : outcome Calculator :=
  o ← object_at this m;
  text ← text_at (name o) m;
  Value (mkCalculator text (numberOfSupportedOperations o)
           (capacityForOperations o) (operations o)).

(** The class invariant for the object at [this]. *)
Definition holds (this : nat) (m : store) : Prop :=
  exists c, members this m = Value c /\ invariant c.

(** A store with no array and no object. *)
Definition empty : store := mkStore [] [].

End Memory.

(** ** Vocabulary of the statements *)

(** The objects the six default constructors build. *)
Definition op_add : Operation := mkOperation Add "Add" "+".
Definition op_subtract : Operation := mkOperation Subtract "Subtract" "-".
Definition op_multiply : Operation := mkOperation Multiply "Multiply" "*".
Definition op_divide : Operation := mkOperation Divide "Divide" "/".
Definition op_power : Operation := mkOperation Power "Power" "**".
Definition op_root : Operation := mkOperation Root "Root" "V".

(** The first operation of [l], in list order, whose symbol is exactly [op]. *)
Definition first_match (l : list Operation) (op : string) : option Operation :=
  List.find (fun o => String.eqb (getSymbol o) op) l.

(** One line of [listSupportedOperations], and the lines for a list. *)
Definition listing_line (o : Operation) : string :=
  getSymbol o ++ " - " ++ getName o ++ nl.

Definition listing (l : list Operation) : string :=
  foldr (fun o rest => listing_line o ++ rest) EmptyString l.

(** A stream in its initial state with the text [b] to read. *)
Definition input (b : string) : istream := mkIstream b false false.

(** [reads_steps s steps s']: starting from [s], the extractions
    [cin >> op; cin >> num2] succeed once for each pair of [steps], in
    order, no [op] being [=], and leave the stream [s']. *)
Inductive reads_steps : istream -> list (string * double) -> istream -> Prop :=
| reads_nil s : reads_steps s [] s
| reads_cons s s1 s2 s' op n steps :
    extract_string EmptyString s = (op, s1) ->
    op <> EmptyString ->
    op <> "=" ->
    extract_double None s1 = (Some n, s2) ->
    reads_steps s2 steps s' ->
    reads_steps s ((op, n) :: steps) s'.

(** [reads_expression s n0 steps s']: the text at [s] is a first operand
    [n0], the operator and operand pairs [steps], and the token [=]. *)
Definition reads_expression (s : istream) (n0 : double)
    (steps : list (string * double)) (s' : istream) : Prop :=
  exists s0 s1,
    extract_double None s = (Some n0, s0) /\
    reads_steps s0 steps s1 /\
    extract_string EmptyString s1 = ("=", s').

(** The legend [main] prints before it reads the symbols. *)
Definition legend_text : string :=
  "Enter operations: " ++ nl ++ "+ - add" ++ nl ++ "- - subtract" ++ nl
    ++ "* - multiply" ++ nl ++ "/ - divide" ++ nl ++ "** - power" ++ nl
    ++ "V - root" ++ nl.

(** Whether a newline character occurs in [b]. *)
Fixpoint has_newline (b : string) : bool :=
  match b with
  | EmptyString => false
  | String c rest => Ascii.eqb c newline || has_newline rest
  end.

(** The world after [cin.clear(); cin.ignore(max, newline)]. *)
Definition discard_line (w : world) : world :=
  set_cin (ignore (clear (cin w))) w.

(** [w] with [text] appended to what was written on [cout]. *)
Definition printed (text : string) (w : world) : world :=
  mkWorld (cin w) (cout w ++ text) (cerr w) (numberOfSuccessfulCalculations w).

Section Evaluation.

Variable pow : double -> double -> double.

(** The left fold of [calculate] over the operator and operand pairs,
    starting from the first operand. *)
Definition evaluate (c : Calculator) (n0 : double) (steps : list (string * double))
  : outcome double :=
  fold_left (fun acc step => r ← acc; calculate pow c r step.2 step.1)
    steps (Value n0).

(** The table of operations as the specification words it, row by row:
    the formula, and a fatal error under the row's condition. *)
Definition table_execute (v : variant) (a b : double) : outcome double :=
  match v with
  | Add => Value (a + b)%float
  | Subtract => Value (a - b)%float
  | Multiply => Value (a * b)%float
  | Divide =>
      if (b =? d0)%float then Thrown "Cannot divide by zero!"
      else Value (a / b)%float
  | Power =>
      if (a =? d0)%float && (b =? d0)%float
      then Thrown "Cannot raise 0 to the power of 0!"
      else Value (pow a b)
  | Root =>
      if (a <? d0)%float && (b <? d0)%float
      then Thrown "Cannot take negative root of negative number!"
      else if (a <? d0)%float && negb (is_integer_value b)
      then Thrown "Cannot take fractional root of negative number"
      else Value (pow a (d1 / b)%float)
  end.

End Evaluation.

(** The calculators a program can hold: built by a constructor that
    returned, or changed by the statements of [addOperation]. *)
Inductive constructed : Calculator -> Prop :=
| constructed_default c :
    Calculator_default = Value c -> constructed c
| constructed_new name n ops c :
    n <= MAX_OPERATORS ->
    Calculator_new name n ops = Value c -> constructed c
| constructed_copy other c :
    constructed other ->
    Calculator_copy other = Value c -> constructed c
| constructed_append op this this' :
    constructed this ->
    addOperation_append op this = Value this' -> constructed this'.

(** A calculator named [calc] that holds the operations [l] in the first
    slots of an array of [MAX_OPERATORS]. *)
Definition calculator_of (l : list Operation) : Calculator :=
  mkCalculator (Some "calc") (length l) MAX_OPERATORS
    (map Some l ++ replicate (MAX_OPERATORS - length l) None)%list.

(** A world at program start, with [text] waiting on [cin]. *)
Definition start_world (text : string) : world :=
  mkWorld (input text) EmptyString EmptyString d0.

(** Instances of the two parameters for statements applied to concrete
    data. None of the runs below reaches [pow]. [put_whole] writes a whole
    number of magnitude below [10^6] the way [cout] does by default. *)
Definition pow_unused (x y : double) : double := PrimFloat.nan.

Definition put_whole (d : double) : string :=
  match to_int d with
  | Value z =>
      if (of_int z =? d)%float && (Z.abs z <? 10 ^ 6)%Z
      then NilZero.string_of_int (Z.to_int z) else "?"
  | Thrown _ | Undefined => "?"
  end.

(** [next_line s s']: [s'] is [s] with the state flags cleared and the rest
    of the current line dropped. The text of [s'] is what follows the first
    newline of the text of [s]; when that text has no newline, none is left
    and [s'] is at the end of the input. *)
Definition next_line (s s' : istream) : Prop :=
  failbit s' = false /\
  ((exists line,
      has_newline line = false /\
      buffer s = line ++ String newline (buffer s') /\ eofbit s' = false) \/
   (has_newline (buffer s) = false /\ buffer s' = EmptyString /\ eofbit s' = true)).

(** [rejected_counts k cur w cur' w']: [k] turns of the prompt for the
    number of operations lead from [w], with [cur] in the variable, to
    [w'] with [cur']. Each turn prints the prompt and extracts; the
    extraction fails or yields more than 16; the turn reports it, and the
    next turn starts on the next line. *)
Inductive rejected_counts : nat -> option N -> world -> option N -> world -> Prop :=
| rejected_counts_none cur w : rejected_counts 0 cur w cur w
| rejected_counts_unparsed k cur w v s1 s' cur' w' :
    extract_size_t cur (cin w) = (v, s1) ->
    fail s1 = true ->
    next_line s1 s' ->
    rejected_counts k v
      (mkWorld s'
         (cout w ++ "Enter number of operations: "
                 ++ "Couldn't convert to number!" ++ nl)
         (cerr w) (numberOfSuccessfulCalculations w)) cur' w' ->
    rejected_counts (S k) cur w cur' w'
| rejected_counts_exceeded k cur w n s1 s' cur' w' :
    extract_size_t cur (cin w) = (Some n, s1) ->
    fail s1 = false ->
    (16 < n)%N ->
    next_line s1 s' ->
    rejected_counts k (Some n)
      (mkWorld s'
         (cout w ++ "Enter number of operations: "
                 ++ "Exceeded operator capacity of 16!" ++ nl)
         (cerr w) (numberOfSuccessfulCalculations w)) cur' w' ->
    rejected_counts (S k) cur w cur' w'.

(** [rejected_batches k n l w l' w']: [k] batches of [n] symbols, each cut
    short at a symbol that is not valid, lead from the array [l] in [w] to
    the array [l'] in [w']; after each batch the next one starts on the
    next line. *)
Inductive rejected_batches
  : nat -> nat -> list string -> world -> list string -> world -> Prop :=
| rejected_batches_none n l w : rejected_batches 0 n l w l w
| rejected_batches_retry k n l w l1 w1 s' l' w' :
    main_batch l EmptyString 0 n w = Returned (l1, false) w1 ->
    next_line (cin w1) s' ->
    rejected_batches k n l1 (set_cin s' w1) l' w' ->
    rejected_batches (S k) n l w l' w'.

(** ** Vocabulary of the further statements *)

(** An operation whose two fields are non-empty. *)
Definition valid_operation (o : Operation) : Prop :=
  op_name o <> EmptyString /\ op_symbol o <> EmptyString.

(** The operations a program can hold: built by a default constructor or by
    [createOperation], cloned by [createNew], or changed by a setter that
    returned. *)
Inductive built_operation : Operation -> Prop :=
| built_default o :
    In (Value o) [AddOperation; SubtractOperation; MultiplyOperation;
                  DivideOperation; PowerOperation; RootOperation] ->
    built_operation o
| built_created operationSymbol o :
    createOperation operationSymbol = Value o -> built_operation o
| built_clone o o' :
    built_operation o -> createNew o = Value o' -> built_operation o'
| built_setName nm o o' :
    built_operation o -> setName nm o = Value o' -> built_operation o'
| built_setSymbol sym o o' :
    built_operation o -> setSymbol sym o = Value o' -> built_operation o'.

(** The operations whose [execute] has no [throwException] and no
    conversion. *)
Definition plain_arithmetic (o : Operation) : bool :=
  match op_variant o with
  | Add | Subtract | Multiply => true
  | Divide | Power | Root => false
  end.

(** The four lines of the menu. *)
Definition menu_text : string :=
  "1. List supported operations" ++ nl ++ "2. List input format" ++ nl
    ++ "3. Start calculation" ++ nl ++ "4. Exit" ++ nl.

(** * Properties *)

(** ** Strings *)

Lemma append_assoc (a b c : string) : (a ++ b) ++ c = a ++ (b ++ c).
Proof. induction a as [|ch a IH]; simpl; [reflexivity | now rewrite IH]. Qed.

Lemma append_nil_r (a : string) : a ++ EmptyString = a.
Proof. induction a as [|ch a IH]; simpl; [reflexivity | now rewrite IH]. Qed.

Lemma strlen_zero (str : string) : (strlen str =? 0)%Z = string_empty str.
Proof.
  destruct str as [|ch rest]; [reflexivity|]. simpl string_empty.
  assert (H : forall t, (0 <= strlen t)%Z) by (induction t; simpl; lia).
  specialize (H rest). apply Z.eqb_neq. change (strlen (String ch rest)) with (1 + strlen rest)%Z. lia.
Qed.

(** ** The conversions between [int] and [double] *)

Lemma digits2_pos_bounds (p : positive) :
  (2 ^ (Zpos (digits2_pos p) - 1) <= Zpos p < 2 ^ Zpos (digits2_pos p))%Z.
Proof.
  induction p as [p IH | p IH |]; simpl digits2_pos.
  - rewrite Pos2Z.inj_succ.
    replace (Z.succ (Zpos (digits2_pos p)) - 1)%Z with (Z.succ (Zpos (digits2_pos p) - 1))%Z by lia.
    rewrite !Z.pow_succ_r by lia. lia.
  - rewrite Pos2Z.inj_succ.
    replace (Z.succ (Zpos (digits2_pos p)) - 1)%Z with (Z.succ (Zpos (digits2_pos p) - 1))%Z by lia.
    rewrite !Z.pow_succ_r by lia. lia.
  - simpl. lia.
Qed.

Lemma digits2_pos_unique (p : positive) (k : Z) :
  (2 ^ (k - 1) <= Zpos p < 2 ^ k)%Z -> Zpos (digits2_pos p) = k.
Proof.
  intros [Hlo Hhi]. pose proof (digits2_pos_bounds p) as [Hlo' Hhi'].
  assert (0 < k)%Z.
  { destruct (Z.ltb_spec 0 k); [assumption|]. 
    assert (2 ^ k <= 2 ^ 0)%Z by (destruct (Z.ltb_spec k 0);
      [rewrite Z.pow_neg_r by lia; simpl; lia | apply Z.pow_le_mono_r; lia]).
    simpl in *. lia. }
  destruct (Z.lt_trichotomy (Zpos (digits2_pos p)) k) as [Hlt | [Heq | Hgt]];
    [exfalso | exact Heq | exfalso].
  - assert (2 ^ Zpos (digits2_pos p) <= 2 ^ (k - 1))%Z by (apply Z.pow_le_mono_r; lia).
    lia.
  - assert (2 ^ k <= 2 ^ (Zpos (digits2_pos p) - 1))%Z by (apply Z.pow_le_mono_r; lia).
    lia.
Qed.

Lemma iter_xO_value (p k : positive) :
  Zpos (Pos.iter xO p k) = (Zpos p * 2 ^ Zpos k)%Z.
Proof.
  induction k as [|k IH] using Pos.peano_ind.
  - simpl. lia.
  - rewrite Pos.iter_succ, Pos2Z.inj_xO, IH, Pos2Z.inj_succ, Z.pow_succ_r by lia. lia.
Qed.

Lemma digits2_pos_iter_xO (p k : positive) :
  digits2_pos (Pos.iter xO p k) = (digits2_pos p + k)%positive.
Proof.
  induction k as [|k IH] using Pos.peano_ind.
  - simpl. lia.
  - rewrite Pos.iter_succ. simpl. rewrite IH. lia.
Qed.

(** An integer of fewer than 53 binary digits is a binary64 number: its
    mantissa is the integer shifted to 53 digits. *)
Lemma binary_round_exact (s : bool) (p : positive) :
  (Zpos (digits2_pos p) < 53)%Z ->
  binary_round prec emax s p 0 =
    S754_finite s (Pos.iter xO p (Z.to_pos (53 - Zpos (digits2_pos p))))
      (Zpos (digits2_pos p) - 53).
Proof.
  intros Hd. set (d := digits2_pos p) in *.
  unfold binary_round.
  assert (Hf : fexp prec emax (Zpos d + 0) = (Zpos d - 53)%Z).
  { unfold fexp, emin. change prec with 53%Z. change emax with 1024%Z. lia. }
  fold d. rewrite Hf. unfold shl_align.
  destruct (Zpos d - 53 - 0)%Z as [|q|q] eqn:Hq; try lia.
  assert (Hq' : Z.to_pos (53 - Zpos d) = q) by lia. rewrite Hq'.
  set (mz := Pos.iter xO p q).
  assert (Hdz : Zpos (digits2_pos mz) = 53%Z).
  { unfold mz. rewrite digits2_pos_iter_xO. fold d. lia. }
  unfold binary_round_aux, shr_fexp. simpl Zdigits2. rewrite Hdz.
  assert (Hf2 : (fexp prec emax (53 + (Zpos d - 53)) - (Zpos d - 53) = 0)%Z).
  { unfold fexp, emin. change prec with 53%Z. change emax with 1024%Z. lia. }
  rewrite Hf2. simpl. rewrite Hdz, Hf2. simpl.
  destruct (Z.leb_spec (Zpos d - 53) (emax - prec)) as [_|Hgt]; [reflexivity|].
  change prec with 53%Z in Hgt. change emax with 1024%Z in Hgt. lia.
Qed.

Lemma Prim2SF_of_uint63 (p : positive) :
  (Zpos (digits2_pos p) < 53)%Z ->
  Prim2SF (of_uint63 (Uint63.of_Z (Zpos p))) =
    S754_finite false (Pos.iter xO p (Z.to_pos (53 - Zpos (digits2_pos p))))
      (Zpos (digits2_pos p) - 53).
Proof.
  intros Hd. rewrite of_uint63_spec, Uint63.of_Z_spec.
  pose proof (digits2_pos_bounds p) as [_ Hhi].
  assert (Hlt : (Zpos p < 2 ^ 53)%Z).
  { apply Z.lt_le_trans with (1 := Hhi). apply Z.pow_le_mono_r; lia. }
  rewrite Z.mod_small by (change Uint63.wB with (2 ^ 63)%Z; lia).
  simpl binary_normalize. now apply binary_round_exact.
Qed.

(** The [double] an [int] other than zero converts to. *)
Lemma Prim2SF_of_int (s : bool) (p : positive) :
  (Zpos (digits2_pos p) < 53)%Z ->
  Prim2SF (of_int (if s then Zneg p else Zpos p)) =
    S754_finite s (Pos.iter xO p (Z.to_pos (53 - Zpos (digits2_pos p))))
      (Zpos (digits2_pos p) - 53).
Proof.
  intros Hd. destruct s; unfold of_int.
  - rewrite opp_spec. change (- Zneg p)%Z with (Zpos p).
    now rewrite Prim2SF_of_uint63.
  - now apply Prim2SF_of_uint63.
Qed.

Lemma SFeqb_finite (s : bool) (m1 m2 : positive) (e1 e2 : Z) :
  SFeqb (S754_finite s m1 e1) (S754_finite s m2 e2) =
    (e1 =? e2)%Z && (m1 =? m2)%positive.
Proof.
  unfold SFeqb, SFcompare. change (Pos.compare_cont Eq m1 m2) with (m1 ?= m2)%positive.
  destruct (Z.eqb_spec e1 e2) as [->|Hne]; simpl.
  - rewrite Z.compare_refl.
    destruct (Pos.eqb_spec m1 m2) as [->|Hm].
    + rewrite Pos.compare_refl. now destruct s.
    + destruct (Pos.compare_spec m1 m2); try contradiction; now destruct s.
  - destruct (Z.compare_spec e1 e2); try contradiction; now destruct s.
Qed.

(** Where the conversion [(int)b] is defined, the test [(int)b != b] of
    [RootOperation::execute] fails exactly for the integer values. *)
Lemma cast_test_integer (b : double) (i : Z) :
  to_int b = Value i -> (of_int i =? b)%float = is_integer_value b.
Proof.
  unfold to_int, truncate, is_integer_value. rewrite FloatAxioms.eqb_spec.
  pose proof (Prim2SF_valid b) as Hv.
  destruct (Prim2SF b) as [s|s| |s m e]; try discriminate.
  - intros [= <-]. now destruct s.
  - simpl in Hv. unfold bounded, canonical_mantissa in Hv.
    apply andb_prop in Hv as [Hc He]. apply Z.eqb_eq in Hc.
    unfold fexp, emin in Hc. change prec with 53%Z in Hc. change emax with 1024%Z in Hc.
    pose proof (digits2_pos_bounds m) as [Hmlo Hmhi].
    destruct (Z.leb_spec 0 e) as [Hnn|Hneg].
    + (* at least 2^52 in magnitude: outside [int] *)
      assert (Hd : Zpos (digits2_pos m) = 53%Z) by lia.
      rewrite Hd in Hmlo. rewrite Z.shiftl_mul_pow2 by lia.
      assert (0 < 2 ^ e)%Z by (apply Z.pow_pos_nonneg; lia).
      assert (2 ^ 52 <= Zpos m * 2 ^ e)%Z by nia.
      change (2 ^ 52)%Z with 4503599627370496%Z in *.
      unfold INT_MIN, INT_MAX.
      destruct s;
        match goal with
        | |- context [(?a && ?c)] =>
            assert (Hr : a && c = false)
              by (apply andb_false_iff; rewrite !Z.leb_gt; simpl; lia);
            rewrite Hr
        end; discriminate.
    + rewrite Z.shiftr_div_pow2 by lia. simpl orb.
      set (K := (2 ^ (- e))%Z). assert (HK : (0 < K)%Z) by (apply Z.pow_pos_nonneg; lia).
      pose proof (Z.div_mod (Zpos m) K ltac:(lia)) as Hdm.
      pose proof (Z.mod_pos_bound (Zpos m) K HK) as Hmod.
      pose proof (Z.div_pos (Zpos m) K ltac:(lia) HK) as Hdiv.
      destruct (Zpos m / K)%Z as [|q|q] eqn:Hq; try lia.
      * (* magnitude below one *)
        replace (if s then (- 0)%Z else 0%Z) with 0%Z by now destruct s.
        simpl andb. cbv iota. intros [= <-].
        assert (Hnz : (Zpos m mod K =? 0)%Z = false) by (apply Z.eqb_neq; lia).
        rewrite Hnz. now destruct s.
      * replace (if s then (- Zpos q)%Z else Zpos q) with (if s then Zneg q else Zpos q)
          by now destruct s.
        destruct ((INT_MIN <=? (if s then Zneg q else Zpos q))%Z
                  && ((if s then Zneg q else Zpos q) <=? INT_MAX)%Z) eqn:Hr;
          [|discriminate].
        intros [= <-].
        assert (Hq31 : (Zpos q <= 2 ^ 31)%Z).
        { apply andb_prop in Hr as [H1 H2]. apply Z.leb_le in H1, H2.
          unfold INT_MIN, INT_MAX in *. destruct s; lia. }
        pose proof (digits2_pos_bounds q) as [Hqlo Hqhi].
        assert (Hdq : (Zpos (digits2_pos q) <= 32)%Z).
        { destruct (Z.leb_spec (Zpos (digits2_pos q)) 32) as [H|H]; [exact H|].
          assert (2 ^ 32 <= 2 ^ (Zpos (digits2_pos q) - 1))%Z
            by (apply Z.pow_le_mono_r; lia).
          change (2 ^ 32)%Z with 4294967296%Z in *.
          change (2 ^ 31)%Z with 2147483648%Z in *. lia. }
        rewrite Prim2SF_of_int by lia. rewrite SFeqb_finite.
        set (dq := Zpos (digits2_pos q)) in *.
        assert (Hmq : Zpos (Pos.iter xO q (Z.to_pos (53 - dq))) = (Zpos q * 2 ^ (53 - dq))%Z).
        { rewrite iter_xO_value. rewrite Z2Pos.id by lia. reflexivity. }
        destruct (Z.eqb_spec (Zpos m mod K) 0) as [Hz|Hnz].
        -- (* an integer value *)
           assert (Hm : Zpos m = (Zpos q * K)%Z) by lia.
           assert (Hdm' : Zpos (digits2_pos m) = (dq - e)%Z).
           { apply digits2_pos_unique. rewrite Hm. unfold K.
             replace (dq - e - 1)%Z with ((dq - 1) + - e)%Z by lia.
             replace (dq - e)%Z with (dq + - e)%Z by lia.
             rewrite !Z.pow_add_r by lia. fold K. nia. }
           assert (Hee : (dq - 53)%Z = e) by lia.
           rewrite Hee, Z.eqb_refl. simpl.
           apply Pos.eqb_eq, Pos2Z.inj. rewrite Hmq, Hm. unfold K.
           do 2 f_equal. lia.
        -- (* a fractional value *)
           apply andb_false_iff.
           destruct (Z.eqb_spec (dq - 53) e) as [Hee|Hee]; [right | now left].
           apply Pos.eqb_neq. intros Heq. apply Hnz.
           assert (Hm : Zpos m = (Zpos q * K)%Z).
           { rewrite <- Heq, Hmq. unfold K. do 2 f_equal. lia. }
           rewrite Hm. apply Z.mod_mul. lia.
Qed.

(** ** Operations *)

Section OperationFacts.

Variable pow : double -> double -> double.

Lemma constructors_build :
  AddOperation = Value op_add /\ SubtractOperation = Value op_subtract /\
  MultiplyOperation = Value op_multiply /\ DivideOperation = Value op_divide /\
  PowerOperation = Value op_power /\ RootOperation = Value op_root.
Proof. repeat split. Qed.

Lemma createNew_valid (o : Operation) :
  op_name o <> EmptyString -> op_symbol o <> EmptyString -> createNew o = Value o.
Proof.
  destruct o as [v [|c1 n] [|c2 s]]; simpl; intros Hn Hs; try congruence.
  reflexivity.
Qed.

End OperationFacts.

(** ** Calculators *)

Lemma assertValidity_Value (name : option string) (capacity : nat) :
  assertValidity name capacity = Value tt <->
  (exists str, name = Some str /\ str <> EmptyString) /\ 0 < capacity.
Proof.
  unfold assertValidity. destruct name as [str|]; simpl.
  - rewrite strlen_zero. destruct str as [|ch rest]; simpl.
    + split; [discriminate|]. intros [(s & [= <-] & Hs) _]. congruence.
    + destruct capacity as [|k]; simpl.
      * split; [discriminate|]. intros [_ H]. lia.
      * split; [|reflexivity]. intros _. split; [|lia].
        exists (String ch rest). split; [reflexivity | discriminate].
  - split; [discriminate|]. intros [(s & [=] & _) _].
Qed.

Lemma Calculator_default_throws :
  Calculator_default = Thrown "Invalid calculator name!".
Proof. reflexivity. Qed.

Lemma write_slot_Value (a a' : op_array) (i : nat) (o : Operation) :
  write_slot a i o = Value a' -> i < length a /\ a' = <[i := Some o]> a.
Proof.
  unfold write_slot. destruct (decide (i < length a)); [|discriminate].
  intros [= <-]. auto.
Qed.

Lemma read_slot_Value (a : op_array) (i : nat) (o : Operation) :
  read_slot a i = Value o <-> a !! i = Some (Some o).
Proof.
  unfold read_slot. destruct (a !! i) as [[x|]|]; split; intros H; congruence.
Qed.

(** A copy loop that returns has stayed inside the destination array. *)
Lemma copy_slots_bound (src : op_array) (todo : nat) :
  forall (dst dst' : op_array) (i : nat),
    copy_slots src dst i todo = Value dst' ->
    length dst' = length dst /\ (todo = 0 \/ i + todo <= length dst).
Proof.
  induction todo as [|todo IH]; intros dst dst' i; simpl.
  - intros [= <-]. auto.
  - destruct (read_slot src i) as [o| |]; simpl; try discriminate.
    destruct (write_slot dst i o) as [d| |] eqn:Hw; simpl; try discriminate.
    apply write_slot_Value in Hw as [Hi ->]. intros H.
    apply IH in H as [Hlen Hb]. rewrite length_insert in Hlen, Hb.
    split; [exact Hlen|]. right. destruct Hb as [-> | Hb]; lia.
Qed.

Lemma copyFrom_Value (nm : option string) (n capacity : nat) (ops : op_array)
    (c : Calculator) :
  copyFrom nm n capacity ops = Value c ->
  name c = nm /\ numberOfSupportedOperations c = n /\
  capacityForOperations c = capacity /\ length (operations c) = capacity /\
  invariant c.
Proof.
  unfold copyFrom.
  destruct (copy_slots ops (replicate capacity None) 0 n) as [slots| |] eqn:Hc;
    simpl; try discriminate.
  destruct (assertValidity nm capacity) as [[]| |] eqn:Ha; simpl; try discriminate.
  intros [= <-]. simpl.
  apply copy_slots_bound in Hc as [Hlen Hb]. rewrite length_replicate in Hlen, Hb.
  apply assertValidity_Value in Ha as [Hname Hcap].
  repeat split; simpl; auto. lia.
Qed.

Lemma addOperation_append_Value (op : Operation) (this this' : Calculator) :
  addOperation_append op this = Value this' ->
  exists clone,
    createNew op = Value clone /\
    numberOfSupportedOperations this <> capacityForOperations this /\
    numberOfSupportedOperations this < length (operations this) /\
    this' = mkCalculator (name this) (S (numberOfSupportedOperations this))
              (capacityForOperations this)
              (<[numberOfSupportedOperations this := Some clone]> (operations this)).
Proof.
  unfold addOperation_append.
  destruct (Nat.eqb_spec (numberOfSupportedOperations this) (capacityForOperations this))
    as [He|Hne]; simpl; [discriminate|].
  destruct (createNew op) as [clone| |]; simpl; try discriminate.
  destruct (write_slot _ _ clone) as [slots| |] eqn:Hw; simpl; try discriminate.
  apply write_slot_Value in Hw as [Hi ->]. intros [= <-].
  exists clone. auto.
Qed.

Lemma addOperation_append_invariant (op : Operation) (this this' : Calculator) :
  invariant this -> addOperation_append op this = Value this' ->
  invariant this' /\ capacityForOperations this' = capacityForOperations this.
Proof.
  intros [Hn Hc Hk] H. apply addOperation_append_Value in H as (clone & _ & Hne & _ & ->).
  split; [|reflexivity]. split; simpl; auto. lia.
Qed.

(** *** The stored operations *)

Lemma stored_from_frame (a b : op_array) (todo : nat) :
  forall i, (forall j, i <= j < i + todo -> a !! j = b !! j) ->
            stored_from a i todo = stored_from b i todo.
Proof.
  induction todo as [|todo IH]; intros i H; simpl; [reflexivity|].
  rewrite (H i) by lia. rewrite (IH (S i)); [reflexivity|].
  intros j Hj. apply H. lia.
Qed.

(** The copy loop stores in the destination what the source holds. *)
Lemma copy_slots_stored (src : op_array) (todo : nat) :
  forall (dst : op_array) (i : nat) (l : list Operation),
    stored_from src i todo = Some l ->
    i + todo <= length dst ->
    exists dst',
      copy_slots src dst i todo = Value dst' /\
      stored_from dst' i todo = Some l /\
      (forall j, j < i -> dst' !! j = dst !! j).
Proof.
  induction todo as [|todo IH]; intros dst i l; simpl.
  - intros [= <-] _. exists dst. auto.
  - unfold read_slot. destruct (src !! i) as [[o|]|] eqn:Hs; try discriminate.
    destruct (stored_from src (S i) todo) as [l'|] eqn:Hl; simpl; [|discriminate].
    intros [= <-] Hb. unfold write_slot.
    destruct (decide (i < length dst)) as [Hi|Hi]; [|lia]. simpl.
    destruct (IH (<[i := Some o]> dst) (S i) l' Hl) as (dst' & Hc & Hst & Hfr).
    { rewrite length_insert. lia. }
    exists dst'. split; [exact Hc|]. split.
    + rewrite (Hfr i) by lia. rewrite list_lookup_insert_eq by lia.
      now rewrite Hst.
    + intros j Hj. rewrite (Hfr j) by lia. apply list_lookup_insert_ne. lia.
Qed.

(** The parameterized constructor returns when its arguments are sound,
    and the calculator holds the first [n] operations of the array. *)
Lemma Calculator_new_stored (nm : string) (n : nat) (ops : op_array)
    (l : list Operation) :
  nm <> EmptyString -> n <= MAX_OPERATORS -> stored_from ops 0 n = Some l ->
  exists c, Calculator_new (Some nm) n ops = Value c /\ stored c = Some l.
Proof.
  intros Hnm Hn Hl. unfold Calculator_new, copyFrom.
  destruct (copy_slots_stored ops n (replicate MAX_OPERATORS None) 0 l Hl)
    as (dst & Hc & Hst & _).
  { rewrite length_replicate. lia. }
  rewrite Hc. simpl.
  assert (Ha : assertValidity (Some nm) MAX_OPERATORS = Value tt).
  { apply assertValidity_Value. split; [eauto | unfold MAX_OPERATORS; lia]. }
  rewrite Ha. simpl. eexists. split; [reflexivity | exact Hst].
Qed.

Section CalculateFacts.

Variable pow : double -> double -> double.

(** [calculate] returns what the first stored operation with the given
    symbol computes, and zero when no stored operation has the symbol. *)
Lemma calculate_from_first_match (ops : op_array) (n1 n2 : double) (op : string)
    (todo : nat) :
  forall (i : nat) (l : list Operation),
    stored_from ops i todo = Some l ->
    calculate_from pow ops n1 n2 op i todo =
      match first_match l op with
      | Some o => execute pow o n1 n2
      | None => Value d0
      end.
Proof.
  induction todo as [|todo IH]; intros i l; simpl.
  - intros [= <-]. reflexivity.
  - unfold read_slot. destruct (ops !! i) as [[o|]|]; try discriminate.
    destruct (stored_from ops (S i) todo) as [l'|] eqn:Hl; simpl; [|discriminate].
    intros [= <-]. simpl. destruct (String.eqb (getSymbol o) op); [reflexivity|].
    now apply IH.
Qed.

Lemma calculate_first_match (c : Calculator) (l : list Operation)
    (n1 n2 : double) (op : string) :
  stored c = Some l ->
  calculate pow c n1 n2 op =
    match first_match l op with
    | Some o => execute pow o n1 n2
    | None => Value d0
    end.
Proof. apply calculate_from_first_match. Qed.

End CalculateFacts.

(** ** The process monad *)

Lemma bind_Returned {A B} (m : proc A) (k : A -> proc B) (w w' : world) (a : A) :
  m w = Returned a w' -> (m ≫= k) w = k a w'.
Proof. unfold mbind, proc_bind, Process.bind. now intros ->. Qed.

Lemma bind_Terminated {A B} (m : proc A) (k : A -> proc B) (w w' : world) :
  m w = Terminated w' -> (m ≫= k) w = Terminated w'.
Proof. unfold mbind, proc_bind, Process.bind. now intros ->. Qed.

Lemma print_printed (text : string) (w : world) :
  print text w = Returned tt (printed text w).
Proof. reflexivity. Qed.

Lemma endl_printed (w : world) : endl w = Returned tt (printed nl w).
Proof. reflexivity. Qed.

Lemma printed_printed (a b : string) (w : world) :
  printed b (printed a w) = printed (a ++ b) w.
Proof. unfold printed. simpl. now rewrite append_assoc. Qed.

Lemma printed_nil (w : world) : printed EmptyString w = w.
Proof. destruct w. unfold printed. simpl. now rewrite append_nil_r. Qed.

Lemma from_cin_eq {A} (f : istream -> A * istream) (w : world) (a : A) (s : istream) :
  f (cin w) = (a, s) -> from_cin f w = Returned a (set_cin s w).
Proof. unfold from_cin. now intros ->. Qed.

(** Steps through [print] and [endl] at the head of a sequence. *)
Ltac step_print :=
  repeat first
    [ rewrite (bind_Returned _ _ _ _ _ (print_printed _ _))
    | rewrite (bind_Returned _ _ _ _ _ (endl_printed _)) ];
  repeat rewrite printed_printed.

Section ConsoleFacts.

Variable pow : double -> double -> double.
Variable put_double : double -> string.

Lemma listSupportedOperations_from_listing (ops : op_array) (todo : nat) :
  forall (i : nat) (l : list Operation) (w : world),
    stored_from ops i todo = Some l ->
    listSupportedOperations_from ops i todo w = Returned tt (printed (listing l) w).
Proof.
  induction todo as [|todo IH]; intros i l w; simpl.
  - intros [= <-]. simpl. now rewrite printed_nil.
  - unfold read_slot. destruct (ops !! i) as [[o|]|]; try discriminate.
    destruct (stored_from ops (S i) todo) as [l'|] eqn:Hl; simpl; [|discriminate].
    intros [= <-].
    rewrite (bind_Returned _ _ w w o) by reflexivity.
    step_print. rewrite (IH _ _ _ Hl). rewrite printed_printed.
    reflexivity.
Qed.

End ConsoleFacts.

(** ** Extraction *)

(** A successful extraction does not depend on what the variable held. *)
Lemma extract_string_cur (s s1 : istream) (op : string) :
  extract_string EmptyString s = (op, s1) -> op <> EmptyString ->
  forall cur, extract_string cur s = (op, s1).
Proof.
  unfold extract_string. destruct (sentry s) as [s0 [|]].
  - intros H _ cur. exact H.
  - intros [= <- <-] Hne. contradiction.
Qed.

Lemma extract_double_cur (s s1 : istream) (n : double) :
  extract_double None s = (Some n, s1) ->
  forall cur, extract_double cur s = (Some n, s1).
Proof.
  unfold extract_double. destruct (sentry s) as [s0 [|]].
  - intros H cur. exact H.
  - discriminate.
Qed.

(** ** Evaluation *)

Section EvaluationFacts.

Variable pow : double -> double -> double.
Variable put_double : double -> string.

Lemma fold_Thrown (c : Calculator) (steps : list (string * double)) (msg : string) :
  fold_left (fun acc step => r ← acc; calculate pow c r step.2 step.1)
    steps (Thrown msg) = Thrown msg.
Proof. induction steps as [|st steps IH]; simpl; [reflexivity | exact IH]. Qed.

Lemma fold_Undefined (c : Calculator) (steps : list (string * double)) :
  fold_left (fun acc step => r ← acc; calculate pow c r step.2 step.1)
    steps Undefined = Undefined.
Proof. induction steps as [|st steps IH]; simpl; [reflexivity | exact IH]. Qed.

Lemma evaluate_cons (c : Calculator) (r0 n : double) (op : string)
    (steps : list (string * double)) :
  evaluate pow c r0 ((op, n) :: steps) =
    (r ← calculate pow c r0 n op; evaluate pow c r steps).
Proof.
  unfold evaluate. simpl.
  destruct (calculate pow c r0 n op); simpl;
    [reflexivity | apply fold_Thrown | apply fold_Undefined].
Qed.

(** One turn of the loop of [startCalculation] whose two extractions
    succeed. *)
Lemma startCalculation_loop_turn (fuel : nat) (c : Calculator) (r0 : double)
    (num2 : option double) (cur op : string) (n : double) (s1 s2 : istream)
    (w : world) :
  extract_string EmptyString (cin w) = (op, s1) ->
  op <> EmptyString -> op <> "=" ->
  extract_double None s1 = (Some n, s2) ->
  startCalculation_loop pow (S fuel) c (Some r0) num2 cur w =
    match calculate pow c r0 n op with
    | Value r => startCalculation_loop pow fuel c (Some r) (Some n) op (set_cin s2 w)
    | Thrown msg => Process.throwException msg (set_cin s2 w)
    | Undefined => UndefinedBehaviour
    end.
Proof.
  intros Hop Hne Heq Hn. simpl.
  rewrite (bind_Returned _ _ w (set_cin s1 w) op)
    by (apply from_cin_eq; now apply extract_string_cur).
  apply String.eqb_neq in Heq. rewrite Heq.
  rewrite (bind_Returned _ _ (set_cin s1 w) (set_cin s2 w) (Some n))
    by (apply (from_cin_eq _ (set_cin s1 w)); simpl; now apply extract_double_cur).
  rewrite (bind_Returned _ _ (set_cin s2 w) (set_cin s2 w) r0) by reflexivity.
  rewrite (bind_Returned _ _ (set_cin s2 w) (set_cin s2 w) n) by reflexivity.
  destruct (calculate pow c r0 n op) as [r|msg|]; reflexivity.
Qed.

(** The turn that reads [=]. *)
Lemma startCalculation_loop_end (fuel : nat) (c : Calculator)
    (result num2 : option double) (cur : string) (s' : istream) (w : world) :
  extract_string EmptyString (cin w) = ("=", s') ->
  startCalculation_loop pow (S fuel) c result num2 cur w =
    Returned result (set_cin s' w).
Proof.
  intros Hop. simpl.
  rewrite (bind_Returned _ _ w (set_cin s' w) "=")
    by (apply from_cin_eq; now apply extract_string_cur).
  reflexivity.
Qed.

Lemma startCalculation_loop_returns (c : Calculator)
    (s s1 : istream) (steps : list (string * double)) :
  reads_steps s steps s1 ->
  forall (s' : istream) (r0 r : double) (extra : nat) (num2 : option double)
         (cur : string) (w : world),
    extract_string EmptyString s1 = ("=", s') ->
    evaluate pow c r0 steps = Value r ->
    cin w = s ->
    startCalculation_loop pow (S (length steps + extra)) c (Some r0) num2 cur w =
      Returned (Some r) (set_cin s' w).
Proof.
  induction 1 as [s | s s1 s2 s3 op n steps Hop Hne Heq Hn Hsteps IH];
    intros s' r0 r extra num2 cur w Hend Hev Hw.
  - injection Hev as <-. apply startCalculation_loop_end. now rewrite Hw.
  - rewrite evaluate_cons in Hev. subst s.
    change (S (length ((op, n) :: steps) + extra))
      with (S (S (length steps + extra))).
    rewrite (startCalculation_loop_turn _ c r0 num2 cur op n s1 s2 w Hop Hne Heq Hn).
    destruct (calculate pow c r0 n op) as [r1|msg|]; simpl in Hev; try discriminate.
    rewrite (IH s' r1 r extra (Some n) op (set_cin s2 w) Hend Hev eq_refl).
    reflexivity.
Qed.

Lemma startCalculation_loop_terminates (c : Calculator)
    (s s1 : istream) (steps : list (string * double)) :
  reads_steps s steps s1 ->
  forall (r0 : double) (msg : string) (extra : nat) (num2 : option double)
         (cur : string) (w : world),
    evaluate pow c r0 steps = Thrown msg ->
    cin w = s ->
    exists w',
      startCalculation_loop pow (length steps + extra) c (Some r0) num2 cur w =
        Terminated w' /\
      cout w' = cout w /\ cerr w' = cerr w ++ msg ++ nl /\
      numberOfSuccessfulCalculations w' = numberOfSuccessfulCalculations w.
Proof.
  induction 1 as [s | s s1 s2 s3 op n steps Hop Hne Heq Hn Hsteps IH];
    intros r0 msg extra num2 cur w Hev Hw.
  - discriminate.
  - rewrite evaluate_cons in Hev. subst s.
    change (length ((op, n) :: steps) + extra) with (S (length steps + extra)).
    rewrite (startCalculation_loop_turn _ c r0 num2 cur op n s1 s2 w Hop Hne Heq Hn).
    destruct (calculate pow c r0 n op) as [r1|msg1|]; simpl in Hev; try discriminate.
    + destruct (IH r1 msg extra (Some n) op (set_cin s2 w) Hev eq_refl)
        as (w' & Hrun & Hout & Herr & Hcnt).
      exists w'. auto.
    + injection Hev as ->. eexists. split; [reflexivity|]. auto.
Qed.

End EvaluationFacts.

(** * The specification, statement by statement: operations and calculators *)

Lemma first_match_found (l1 l2 : list Operation) (o : Operation) (op : string) :
  getSymbol o = op ->
  (forall o', In o' l1 -> getSymbol o' <> op) ->
  first_match (l1 ++ o :: l2) op = Some o.
Proof.
  intros Ho. induction l1 as [|x l1 IH]; intros Hl1; simpl.
  - apply String.eqb_eq in Ho. unfold first_match. simpl. now rewrite Ho.
  - unfold first_match in *. simpl.
    assert (Hx : String.eqb (getSymbol x) op = false).
    { apply String.eqb_neq, Hl1. now left. }
    rewrite Hx. apply IH. intros o' Ho'. apply Hl1. now right.
Qed.

Lemma first_match_none (l : list Operation) (op : string) :
  (forall o, In o l -> getSymbol o <> op) -> first_match l op = None.
Proof.
  induction l as [|x l IH]; intros Hl; [reflexivity|].
  unfold first_match in *. simpl.
  assert (Hx : String.eqb (getSymbol x) op = false).
  { apply String.eqb_neq, Hl. now left. }
  rewrite Hx. apply IH. intros o Ho. apply Hl. now right.
Qed.

Section ArithmeticStatements.

Variable pow : double -> double -> double.

(** C2: [execute] returns what the table gives, and fails where the table
    gives a fatal error, for every operation and all operands for which the
    conversion [(int)b] in the root operation is defined or not reached.
    At [-8] and [3000000000] it is reached and not defined: the table gives
    the result [pow a (1/b)], the second operand being a non-negative
    integer value, and the call has no defined result. *)
Theorem execute_table_within_int :
  (forall (o : Operation) (a b : double),
     (op_variant o = Root -> (a <? d0)%float = true -> (b <? d0)%float = false ->
      exists i, to_int b = Value i) ->
     execute pow o a b = table_execute pow (op_variant o) a b) /\
  (-8 <? d0)%float = true /\
  (3000000000 <? d0)%float = false /\
  is_integer_value 3000000000%float = true /\
  table_execute pow Root (-8)%float 3000000000%float
    = Value (pow (-8)%float (d1 / 3000000000)%float) /\
  execute pow op_root (-8)%float 3000000000%float = Undefined.
Proof.
  split; [|repeat split].
  intros o a b Hcast. unfold execute.
  destruct (op_variant o); try reflexivity.
  unfold RootOperation_execute, table_execute.
  destruct (a <? d0)%float eqn:Ha; [|reflexivity].
  destruct (b <? d0)%float eqn:Hb; [reflexivity|].
  destruct (Hcast eq_refl eq_refl eq_refl) as [i Hi]. rewrite Hi. simpl.
  now rewrite (cast_test_integer b i Hi).
Qed.

(** C5: below capacity the two statements of [addOperation] store a clone
    in the next slot and count it, and the [return] statement then ends the
    call with the failure of the default constructor; at capacity the call
    fails with the capacity message. *)
Theorem addOperation_capacity :
  forall (op : Operation) (this : Calculator),
    op_name op <> EmptyString -> op_symbol op <> EmptyString ->
    length (operations this) = capacityForOperations this ->
    (numberOfSupportedOperations this < capacityForOperations this ->
       addOperation_append op this =
         Value (mkCalculator (name this) (S (numberOfSupportedOperations this))
                  (capacityForOperations this)
                  (<[numberOfSupportedOperations this := Some op]> (operations this)))
       /\ addOperation op this = Thrown "Invalid calculator name!") /\
    (numberOfSupportedOperations this = capacityForOperations this ->
       addOperation op this = Thrown "Capacity for operations exceeded!").
Proof.
  intros op this Hn Hs Hlen. split.
  - intros Hlt.
    assert (Ha : addOperation_append op this =
                 Value (mkCalculator (name this) (S (numberOfSupportedOperations this))
                          (capacityForOperations this)
                          (<[numberOfSupportedOperations this := Some op]>
                             (operations this)))).
    { unfold addOperation_append.
      destruct (Nat.eqb_spec (numberOfSupportedOperations this)
                  (capacityForOperations this)) as [He|_]; [lia|]. simpl.
      rewrite (createNew_valid op Hn Hs). simpl. unfold write_slot.
      destruct (decide (numberOfSupportedOperations this < length (operations this)))
        as [_|Hge]; [reflexivity | lia]. }
    split; [exact Ha|]. unfold addOperation. now rewrite Ha.
  - intros He. unfold addOperation, addOperation_append.
    apply Nat.eqb_eq in He. now rewrite He.
Qed.

(** C6: the default constructor never returns: it ends in
    [throwException] with the name message, which in a running process
    writes the message on [cerr] and terminates; hence no call of
    [addOperation] returns. *)
Theorem Calculator_default_never_returns :
  Calculator_default = Thrown "Invalid calculator name!" /\
  (forall (A : Type) (k : Calculator -> proc A) (w : world),
     (lift Calculator_default ≫= k) w =
       Terminated (mkWorld (cin w) (cout w)
                     (cerr w ++ "Invalid calculator name!" ++ nl)
                     (numberOfSuccessfulCalculations w))) /\
  (forall (op : Operation) (this : Calculator),
     addOperation op this = Undefined \/
     exists msg, addOperation op this = Thrown msg).
Proof.
  split; [reflexivity|]. split; [reflexivity|].
  intros op this. unfold addOperation.
  destruct (addOperation_append op this) as [this'|msg|]; simpl; eauto.
Qed.

(** By value: every calculator obtained from a constructor that returned,
    and every calculator the statements of [addOperation] produce from one,
    has a non-empty name, a positive capacity and at most as many
    operations as its capacity; that capacity is [MAX_OPERATORS]. *)
Theorem constructed_invariant :
  forall c : Calculator,
    constructed c -> invariant c /\ capacityForOperations c = MAX_OPERATORS.
Proof.
  induction 1 as [c H | nm n ops c Hn H | other c Ho IH H | op this this' Ht IH H].
  - rewrite Calculator_default_throws in H. discriminate.
  - apply copyFrom_Value in H. tauto.
  - apply copyFrom_Value in H as (_ & _ & Hcap & _ & Hinv).
    split; [exact Hinv|]. rewrite Hcap. tauto.
  - destruct IH as [Hinv Hcap].
    destruct (addOperation_append_invariant op this this' Hinv H) as [Hinv' Hcap'].
    split; [exact Hinv'|]. congruence.
Qed.

End ArithmeticStatements.

Lemma execute_table_within_int_witness :
  execute pow_unused op_root (-8)%float 3%float
    = Value (pow_unused (-8)%float (d1 / 3)%float) /\
  execute pow_unused op_root (-8)%float 2.5%float
    = Thrown "Cannot take fractional root of negative number".
Proof.
  split.
  - apply (proj1 (execute_table_within_int pow_unused) op_root (-8)%float 3%float).
    intros _ _ _. exists 3%Z. reflexivity.
  - apply (proj1 (execute_table_within_int pow_unused) op_root (-8)%float 2.5%float).
    intros _ _ _. exists 2%Z. reflexivity.
Defined.

Lemma addOperation_capacity_witness :
  addOperation_append op_add (calculator_of [op_subtract])
    = Value (calculator_of [op_subtract; op_add]) /\
  addOperation op_add (calculator_of [op_subtract]) = Thrown "Invalid calculator name!".
Proof.
  apply (addOperation_capacity op_add (calculator_of [op_subtract]));
    [discriminate | discriminate | reflexivity | unfold calculator_of, MAX_OPERATORS; simpl; lia].
Defined.

Lemma constructed_invariant_witness :
  invariant (calculator_of [op_add; op_subtract]) /\
  capacityForOperations (calculator_of [op_add; op_subtract]) = MAX_OPERATORS.
Proof.
  apply constructed_invariant.
  apply (constructed_new (Some "calc") 2 [Some op_add; Some op_subtract]).
  - unfold MAX_OPERATORS. lia.
  - reflexivity.
Defined.

(** * The specification, statement by statement: the console *)

(** Proves that a concrete text is read as an expression. *)
Ltac read_expression :=
  eexists; eexists; split; [vm_compute; reflexivity|];
  split;
  [ repeat (eapply reads_cons;
            [vm_compute; reflexivity | discriminate | discriminate
            | vm_compute; reflexivity | ]);
    apply reads_nil
  | vm_compute; reflexivity ].

Section ConsoleStatements.

Variable pow : double -> double -> double.
Variable put_double : double -> string.

(** The value of an expression depends on the stored operations only. *)
Lemma evaluate_stored (c c' : Calculator) (l : list Operation) (n0 : double)
    (steps : list (string * double)) :
  stored c = Some l -> stored c' = Some l ->
  evaluate pow c n0 steps = evaluate pow c' n0 steps.
Proof.
  intros Hc Hc'. revert n0. induction steps as [|[op n] steps IH]; intros n0.
  - reflexivity.
  - rewrite !evaluate_cons.
    rewrite (calculate_first_match pow c l n0 n op Hc).
    rewrite (calculate_first_match pow c' l n0 n op Hc').
    destruct (match first_match l op with
              | Some o => execute pow o n0 n
              | None => Value d0
              end); simpl; auto.
Qed.

Lemma stored_calculator_of (l : list Operation) :
  stored (calculator_of l) = Some l.
Proof.
  unfold stored, calculator_of. simpl.
  generalize (replicate (MAX_OPERATORS - length l) (@None Operation)).
  intros tail.
  assert (H : forall pre : op_array,
             stored_from (pre ++ map Some l ++ tail)%list (length pre) (length l) = Some l).
  { induction l as [|o l IH]; intros pre; simpl; [reflexivity|].
    rewrite lookup_app_r by lia. rewrite Nat.sub_diag. simpl.
    specialize (IH (pre ++ [Some o])%list). rewrite length_app in IH. simpl in IH.
    rewrite <- app_assoc in IH. simpl in IH.
    replace (length pre + 1) with (S (length pre)) in IH by lia.
    now rewrite IH. }
  exact (H []).
Qed.

Lemma startCalculation_returns (c : Calculator) (w : world) (n0 r : double)
    (steps : list (string * double)) (s' : istream) (extra : nat) :
  reads_expression (cin w) n0 steps s' ->
  evaluate pow c n0 steps = Value r ->
  startCalculation pow put_double (S (length steps + extra)) c w =
    Returned tt (mkWorld s' (cout w ++ put_double r ++ nl) (cerr w)
                   (numberOfSuccessfulCalculations w + d1)%float).
Proof.
  intros (s0 & s1 & Hn0 & Hsteps & Hend) Hev. unfold startCalculation.
  rewrite (bind_Returned _ _ w (set_cin s0 w) (Some n0))
    by (now apply from_cin_eq).
  rewrite (bind_Returned _ _ (set_cin s0 w) (set_cin s' w) (Some r))
    by (exact (startCalculation_loop_returns pow c s0 s1 steps Hsteps s' n0 r extra
                 None EmptyString (set_cin s0 w) Hend Hev eq_refl)).
  unfold mbind, proc_bind, Process.bind. simpl.
  unfold endl, print. simpl. now rewrite append_assoc.
Qed.

Lemma startCalculation_terminates (c : Calculator) (w : world) (n0 : double)
    (steps : list (string * double)) (s0 s1 : istream) (msg : string) (extra : nat) :
  extract_double None (cin w) = (Some n0, s0) ->
  reads_steps s0 steps s1 ->
  evaluate pow c n0 steps = Thrown msg ->
  exists w',
    startCalculation pow put_double (length steps + extra) c w = Terminated w' /\
    cout w' = cout w /\ cerr w' = cerr w ++ msg ++ nl /\
    numberOfSuccessfulCalculations w' = numberOfSuccessfulCalculations w.
Proof.
  intros Hn0 Hsteps Hev. unfold startCalculation.
  rewrite (bind_Returned _ _ w (set_cin s0 w) (Some n0))
    by (now apply from_cin_eq).
  destruct (startCalculation_loop_terminates pow c s0 s1 steps Hsteps n0 msg extra
              None EmptyString (set_cin s0 w) Hev eq_refl)
    as (w' & Hrun & Hout & Herr & Hcnt).
  exists w'. split; [now apply bind_Terminated | auto].
Qed.

(** C1: when the text on [cin] is a first operand, operator and operand
    pairs and the token [=], and no step fails, [startCalculation] returns
    having printed the left fold of [calculate] over the pairs and added one
    to the success counter; on [10 + 5 - 3 =] with the operations [+] and
    [-] it prints 12. *)
Theorem startCalculation_left_fold :
  (forall (c : Calculator) (w : world) (n0 r : double)
          (steps : list (string * double)) (s' : istream) (extra : nat),
     reads_expression (cin w) n0 steps s' ->
     evaluate pow c n0 steps = Value r ->
     startCalculation pow put_double (S (length steps + extra)) c w =
       Returned tt (mkWorld s' (cout w ++ put_double r ++ nl) (cerr w)
                      (numberOfSuccessfulCalculations w + d1)%float)) /\
  (forall (c : Calculator) (w : world) (extra : nat),
     stored c = Some [op_add; op_subtract] ->
     cin w = input "10 + 5 - 3 =" ->
     startCalculation pow put_double (3 + extra) c w =
       Returned tt (mkWorld (mkIstream EmptyString true false)
                      (cout w ++ put_double 12%float ++ nl) (cerr w)
                      (numberOfSuccessfulCalculations w + d1)%float)).
Proof.
  split.
  - intros c w n0 r steps s' extra Hread Hev.
    exact (startCalculation_returns c w n0 r steps s' extra Hread Hev).
  - intros c w extra Hst Hcin.
    apply (startCalculation_returns c w 10%float 12%float
             [("+", 5%float); ("-", 3%float)] _ extra).
    + rewrite Hcin. read_expression.
    + rewrite (evaluate_stored c _ _ _ _ Hst (stored_calculator_of _)).
      reflexivity.
Qed.

(** C3: [calculate] applies the operation that comes first among the
    stored ones with exactly the given symbol, and returns zero without
    failing when no stored operation has the symbol; so [5 * 2 =] with the
    only operation [+] completes and prints zero. *)
Theorem calculate_linear_scan :
  forall (c : Calculator) (l : list Operation),
    stored c = Some l ->
    (forall n1 n2 op l1 o l2,
       l = (l1 ++ o :: l2)%list -> getSymbol o = op ->
       (forall o', In o' l1 -> getSymbol o' <> op) ->
       calculate pow c n1 n2 op = execute pow o n1 n2) /\
    (forall n1 n2 op,
       (forall o, In o l -> getSymbol o <> op) ->
       calculate pow c n1 n2 op = Value d0) /\
    (l = [op_add] ->
     forall (w : world) (extra : nat),
       cin w = input "5 * 2 =" ->
       startCalculation pow put_double (2 + extra) c w =
         Returned tt (mkWorld (mkIstream EmptyString true false)
                        (cout w ++ put_double d0 ++ nl) (cerr w)
                        (numberOfSuccessfulCalculations w + d1)%float)).
Proof.
  intros c l Hst. split; [|split].
  - intros n1 n2 op l1 o l2 -> Ho Hl1.
    rewrite (calculate_first_match pow c _ n1 n2 op Hst).
    now rewrite (first_match_found l1 l2 o op Ho Hl1).
  - intros n1 n2 op Hl.
    rewrite (calculate_first_match pow c _ n1 n2 op Hst).
    now rewrite (first_match_none l op Hl).
  - intros -> w extra Hcin.
    apply (startCalculation_returns c w 5%float d0 [("*", 2%float)] _ extra).
    + rewrite Hcin. read_expression.
    + rewrite (evaluate_stored c _ _ _ _ Hst (stored_calculator_of _)).
      reflexivity.
Qed.

(** C4: when a step of the expression fails, [startCalculation] ends in
    [terminate] with the message on [cerr], nothing written on [cout] and
    the success counter as it was; on [8 / 0 =] with the operation [/] the
    message is that of the division by zero. *)
Theorem startCalculation_fatal :
  (forall (c : Calculator) (w : world) (n0 : double)
          (steps : list (string * double)) (s0 s1 : istream) (msg : string)
          (extra : nat),
     extract_double None (cin w) = (Some n0, s0) ->
     reads_steps s0 steps s1 ->
     evaluate pow c n0 steps = Thrown msg ->
     exists w',
       startCalculation pow put_double (length steps + extra) c w = Terminated w' /\
       cout w' = cout w /\ cerr w' = cerr w ++ msg ++ nl /\
       numberOfSuccessfulCalculations w' = numberOfSuccessfulCalculations w) /\
  (forall (c : Calculator) (w : world) (extra : nat),
     stored c = Some [op_divide] ->
     cin w = input "8 / 0 =" ->
     startCalculation pow put_double (1 + extra) c w =
       Terminated (mkWorld (input " =") (cout w)
                     (cerr w ++ "Cannot divide by zero!" ++ nl)
                     (numberOfSuccessfulCalculations w))).
Proof.
  split.
  - intros c w n0 steps s0 s1 msg extra Hn0 Hsteps Hev.
    exact (startCalculation_terminates c w n0 steps s0 s1 msg extra Hn0 Hsteps Hev).
  - intros c w extra Hst Hcin.
    change (1 + extra) with (S extra). unfold startCalculation.
    rewrite (bind_Returned _ _ w (set_cin (input " / 0 =") w) (Some 8%float))
      by (apply from_cin_eq; rewrite Hcin; vm_compute; reflexivity).
    apply bind_Terminated.
    etransitivity.
    { apply (startCalculation_loop_turn pow extra c 8%float None EmptyString "/"
               0%float (input " 0 =") (input " ="));
        [ vm_compute; reflexivity | discriminate | discriminate
        | vm_compute; reflexivity ]. }
    rewrite (calculate_first_match pow c _ _ _ _ Hst). reflexivity.
Qed.

(** C9: [listSupportedOperations] appends to [cout] one line
    [symbol - name] for each stored operation, in slot order, and changes
    nothing else; a calculator constructed with [+], [-] and [*] prints the
    three lines of the example. *)
Theorem listSupportedOperations_lines :
  forall (c : Calculator) (l : list Operation) (w : world),
    stored c = Some l ->
    listSupportedOperations c w =
      Returned tt (mkWorld (cin w) (cout w ++ listing l) (cerr w)
                     (numberOfSuccessfulCalculations w)) /\
    (forall nm : string,
       nm <> EmptyString ->
       exists c3,
         Calculator_new (Some nm) 3 [Some op_add; Some op_subtract; Some op_multiply]
           = Value c3 /\
         listSupportedOperations c3 w =
           Returned tt (mkWorld (cin w)
                          (cout w ++ "+ - Add" ++ nl ++ "- - Subtract" ++ nl
                                  ++ "* - Multiply" ++ nl)
                          (cerr w) (numberOfSuccessfulCalculations w))).
Proof.
  intros c l w Hst. split.
  - exact (listSupportedOperations_from_listing _ _ _ _ _ Hst).
  - intros nm Hnm.
    destruct (Calculator_new_stored nm 3
                [Some op_add; Some op_subtract; Some op_multiply]
                [op_add; op_subtract; op_multiply] Hnm)
      as (c3 & Hnew & Hst3); [unfold MAX_OPERATORS; lia | reflexivity |].
    exists c3. split; [exact Hnew|].
    exact (listSupportedOperations_from_listing _ _ _ _ _ Hst3).
Qed.

End ConsoleStatements.

Lemma startCalculation_left_fold_witness :
  startCalculation pow_unused put_whole 3 (calculator_of [op_add; op_subtract])
    (start_world "10 + 5 - 3 =")
  = Returned tt (mkWorld (mkIstream EmptyString true false) ("12" ++ nl)
                   EmptyString 1%float).
Proof.
  refine (proj1 (startCalculation_left_fold pow_unused put_whole)
            (calculator_of [op_add; op_subtract])
            (start_world "10 + 5 - 3 =") 10%float 12%float
            [("+", 5%float); ("-", 3%float)]
            (mkIstream EmptyString true false) 0 _ eq_refl).
  read_expression.
Defined.

Lemma calculate_linear_scan_witness :
  calculate pow_unused (calculator_of [op_add; op_subtract; op_add])
    15%float 3%float "-" = Value 12%float.
Proof.
  apply (proj1 (calculate_linear_scan pow_unused put_whole
                  (calculator_of [op_add; op_subtract; op_add])
                  [op_add; op_subtract; op_add] eq_refl)
           15%float 3%float "-" [op_add] op_subtract [op_add] eq_refl eq_refl).
  intros o' [<- | []]. discriminate.
Defined.

Lemma startCalculation_fatal_witness :
  exists w',
    startCalculation pow_unused put_whole 1 (calculator_of [op_divide])
      (start_world "8 / 0 =") = Terminated w' /\
    cout w' = EmptyString /\ cerr w' = "Cannot divide by zero!" ++ nl /\
    numberOfSuccessfulCalculations w' = d0.
Proof.
  refine (proj1 (startCalculation_fatal pow_unused put_whole)
            (calculator_of [op_divide])
            (start_world "8 / 0 =") 8%float [("/", 0%float)]
            (input " / 0 =") (input " =") "Cannot divide by zero!" 0
            eq_refl _ eq_refl).
  eapply reads_cons;
    [vm_compute; reflexivity | discriminate | discriminate
    | vm_compute; reflexivity | apply reads_nil].
Defined.

Lemma listSupportedOperations_lines_witness :
  listSupportedOperations (calculator_of [op_add; op_subtract; op_multiply])
    (start_world EmptyString)
  = Returned tt (mkWorld (input EmptyString)
                   ("+ - Add" ++ nl ++ "- - Subtract" ++ nl ++ "* - Multiply" ++ nl)
                   EmptyString d0).
Proof.
  exact (proj1 (listSupportedOperations_lines
                  (calculator_of [op_add; op_subtract; op_multiply])
                  [op_add; op_subtract; op_multiply] (start_world EmptyString)
                  eq_refl)).
Defined.

(** * The specification, statement by statement: [main] *)

(** What [ignore] drops is the rest of the current line. *)
Lemma skip_line_spec (b : string) :
  (exists line,
     has_newline line = false /\
     b = line ++ String newline (skip_line b).1 /\ (skip_line b).2 = false) \/
  (has_newline b = false /\ skip_line b = (EmptyString, true)).
Proof.
  induction b as [|ch b IH]; simpl.
  - right. auto.
  - destruct (Ascii.eqb_spec ch newline) as [->|Hne]; simpl.
    + left. exists EmptyString. auto.
    + destruct IH as [(line & Hline & Hb & Heof) | [Hno Hskip]].
      * left. exists (String ch line). simpl.
        apply Ascii.eqb_neq in Hne. rewrite Hne, Hline.
        split; [reflexivity|]. split; [now rewrite <- Hb | exact Heof].
      * right. split; [exact Hno | exact Hskip].
Qed.

Lemma ignore_clear (s : istream) :
  ignore (clear s) = mkIstream (skip_line (buffer s)).1 (skip_line (buffer s)).2 false.
Proof. unfold ignore, clear, good. simpl. now destruct (skip_line (buffer s)). Qed.

Lemma has_newline_app (line rest : string) :
  has_newline (line ++ String newline rest) = true.
Proof.
  induction line as [|ch line IH]; simpl.
  - reflexivity.
  - rewrite IH. apply orb_true_r.
Qed.

Lemma line_split_unique (line1 line2 rest1 rest2 : string) :
  has_newline line1 = false -> has_newline line2 = false ->
  line1 ++ String newline rest1 = line2 ++ String newline rest2 ->
  rest1 = rest2.
Proof.
  revert line2. induction line1 as [|c1 line1 IH]; intros [|c2 line2]; simpl.
  - intros _ _ [= ->]. reflexivity.
  - intros _ H2 [= <- _]. rewrite Ascii.eqb_refl in H2. discriminate.
  - intros H1 _ [= -> _]. rewrite Ascii.eqb_refl in H1. discriminate.
  - intros H1 H2 [= _ H]. apply orb_false_iff in H1 as [_ H1].
    apply orb_false_iff in H2 as [_ H2]. exact (IH line2 H1 H2 H).
Qed.

(** [clear] then [ignore] lead to the next line, *)
Lemma next_line_ignore_clear (s : istream) : next_line s (ignore (clear s)).
Proof.
  rewrite ignore_clear. split; [reflexivity|]. simpl.
  destruct (skip_line_spec (buffer s)) as [(line & Hline & Hb & Heof) | [Hno Hskip]].
  - left. exists line. auto.
  - right. rewrite Hskip. auto.
Qed.

(** and a stream has one next line only. *)
Lemma next_line_unique (s s1 s2 : istream) :
  next_line s s1 -> next_line s s2 -> s1 = s2.
Proof.
  destruct s1 as [b1 e1 f1], s2 as [b2 e2 f2]. unfold next_line. simpl.
  intros [-> H1] [-> H2].
  destruct H1 as [(l1 & Hl1 & Hb1 & ->) | (Hn1 & -> & ->)],
           H2 as [(l2 & Hl2 & Hb2 & ->) | (Hn2 & -> & ->)].
  - rewrite Hb1 in Hb2. now rewrite (line_split_unique _ _ _ _ Hl1 Hl2 Hb2).
  - rewrite Hb1, has_newline_app in Hn2. discriminate.
  - rewrite Hb2, has_newline_app in Hn1. discriminate.
  - reflexivity.
Qed.

Lemma on_cin_eq (f : istream -> istream) (w : world) :
  on_cin f w = Returned tt (set_cin (f (cin w)) w).
Proof. reflexivity. Qed.

(** Steps through [cin.clear(); cin.ignore(...)] and compares the worlds. *)
Ltac step_discard :=
  rewrite (bind_Returned _ _ _ _ _ (on_cin_eq clear _));
  rewrite (bind_Returned _ _ _ _ _ (on_cin_eq ignore _));
  f_equal; unfold set_cin, printed;
  cbn [cin cout cerr numberOfSuccessfulCalculations];
  f_equal; rewrite ?append_assoc; reflexivity.

(** One turn of the loop that reads the number of operations. *)
Lemma main_count_loop_turn (fuel : nat) (cur v : option N) (s1 : istream) (w : world) :
  extract_size_t cur (cin w) = (v, s1) ->
  main_count_loop (S fuel) cur w =
    if fail s1 then
      main_count_loop fuel v
        (mkWorld (ignore (clear s1))
           (cout w ++ "Enter number of operations: " ++ "Couldn't convert to number!" ++ nl)
           (cerr w) (numberOfSuccessfulCalculations w))
    else
      match v with
      | None => UndefinedBehaviour
      | Some n =>
          if (16 <? n)%N then
            main_count_loop fuel v
              (mkWorld (ignore (clear s1))
                 (cout w ++ "Enter number of operations: "
                         ++ "Exceeded operator capacity of 16!" ++ nl)
                 (cerr w) (numberOfSuccessfulCalculations w))
          else
            Returned n (mkWorld s1 (cout w ++ "Enter number of operations: ")
                          (cerr w) (numberOfSuccessfulCalculations w))
      end.
Proof.
  intros Hx. cbn [main_count_loop].
  rewrite (bind_Returned _ _ _ _ _ (print_printed _ w)).
  rewrite (bind_Returned _ _ _ (set_cin s1 (printed "Enter number of operations: " w)) v)
    by (now apply from_cin_eq).
  rewrite (bind_Returned _ _ _ (set_cin s1 (printed "Enter number of operations: " w))
             (fail s1)) by reflexivity.
  destruct (fail s1).
  - step_print. step_discard.
  - destruct v as [n|]; [|reflexivity].
    rewrite (bind_Returned _ _ _ (set_cin s1 (printed "Enter number of operations: " w)) n)
      by reflexivity.
    change (N.of_nat MAX_OPERATORS) with 16%N.
    destruct (16 <? n)%N; [|reflexivity].
    step_print. step_discard.
Qed.

(** Rejected turns followed by an accepted one. *)
Lemma main_count_loop_accepts (k : nat) (cur cur0 : option N) (w w0 : world) :
  rejected_counts k cur w cur0 w0 ->
  forall (n : N) (s1 : istream) (extra : nat),
    extract_size_t cur0 (cin w0) = (Some n, s1) ->
    fail s1 = false ->
    (n <= 16)%N ->
    main_count_loop (S (k + extra)) cur w =
      Returned n (mkWorld s1 (cout w0 ++ "Enter number of operations: ")
                    (cerr w0) (numberOfSuccessfulCalculations w0)).
Proof.
  induction 1 as [cur w | k cur w v s1 s' cur' w' Hx Hf Hl _ IH
                  | k cur w m s1 s' cur' w' Hx Hf Hm Hl _ IH];
    intros n s2 extra Hx2 Hf2 Hn.
  - rewrite (main_count_loop_turn _ cur _ s2 w Hx2), Hf2.
    apply N.ltb_ge in Hn. now rewrite Hn.
  - change (S (S k + extra)) with (S (S (k + extra))).
    rewrite (main_count_loop_turn _ cur v s1 w Hx), Hf.
    rewrite (next_line_unique _ _ _ (next_line_ignore_clear s1) Hl).
    exact (IH n s2 extra Hx2 Hf2 Hn).
  - change (S (S k + extra)) with (S (S (k + extra))).
    rewrite (main_count_loop_turn _ cur _ s1 w Hx), Hf.
    apply N.ltb_lt in Hm. rewrite Hm.
    rewrite (next_line_unique _ _ _ (next_line_ignore_clear s1) Hl).
    exact (IH n s2 extra Hx2 Hf2 Hn).
Qed.

(** C8: a turn of the prompt whose extraction fails, or yields more than
    16, reports it (with the capacity message in the second case) and the
    loop goes on, with the value extracted, in the stream [s'] that has the
    state flags cleared and the rest of the line dropped; a turn whose
    extraction yields at most 16 leaves the loop with that count. A stream
    has one such [s'] only. The loop returns after any number of rejected
    turns followed by an accepted one, and it returns in no other way: the
    count it returns is at most 16 and was extracted from the input where
    the rejected turns left it. *)
Theorem main_count_loop_rejects :
  (forall (fuel : nat) (cur v : option N) (s1 : istream) (w : world),
     extract_size_t cur (cin w) = (v, s1) ->
     exists s',
       next_line s1 s' /\
       (fail s1 = true ->
        main_count_loop (S fuel) cur w =
          main_count_loop fuel v
            (mkWorld s'
               (cout w ++ "Enter number of operations: "
                       ++ "Couldn't convert to number!" ++ nl)
               (cerr w) (numberOfSuccessfulCalculations w))) /\
       (forall n, fail s1 = false -> v = Some n -> (16 < n)%N ->
        main_count_loop (S fuel) cur w =
          main_count_loop fuel v
            (mkWorld s'
               (cout w ++ "Enter number of operations: "
                       ++ "Exceeded operator capacity of 16!" ++ nl)
               (cerr w) (numberOfSuccessfulCalculations w))) /\
       (forall n, fail s1 = false -> v = Some n -> (n <= 16)%N ->
        main_count_loop (S fuel) cur w =
          Returned n (mkWorld s1 (cout w ++ "Enter number of operations: ")
                        (cerr w) (numberOfSuccessfulCalculations w)))) /\
  (forall s s1 s2 : istream, next_line s s1 -> next_line s s2 -> s1 = s2) /\
  (forall (k : nat) (cur cur0 : option N) (w w0 : world) (n : N) (s1 : istream)
          (extra : nat),
     rejected_counts k cur w cur0 w0 ->
     extract_size_t cur0 (cin w0) = (Some n, s1) ->
     fail s1 = false ->
     (n <= 16)%N ->
     main_count_loop (S (k + extra)) cur w =
       Returned n (mkWorld s1 (cout w0 ++ "Enter number of operations: ")
                     (cerr w0) (numberOfSuccessfulCalculations w0))) /\
  (forall (fuel : nat) (cur : option N) (w w' : world) (n : N),
     main_count_loop fuel cur w = Returned n w' ->
     (n <= 16)%N /\
     exists k cur0 w0,
       k < fuel /\
       rejected_counts k cur w cur0 w0 /\
       extract_size_t cur0 (cin w0) = (Some n, cin w') /\
       fail (cin w') = false /\
       w' = mkWorld (cin w') (cout w0 ++ "Enter number of operations: ")
              (cerr w0) (numberOfSuccessfulCalculations w0)).
Proof.
  split; [|split; [|split]].
  - intros fuel cur v s1 w Hx. exists (ignore (clear s1)).
    split; [apply next_line_ignore_clear|]. split; [|split].
    + intros Hf. rewrite (main_count_loop_turn fuel cur v s1 w Hx). rewrite Hf.
      reflexivity.
    + intros n Hf -> Hn. rewrite (main_count_loop_turn fuel cur _ s1 w Hx).
      rewrite Hf. apply N.ltb_lt in Hn. rewrite Hn. reflexivity.
    + intros n Hf -> Hn. rewrite (main_count_loop_turn fuel cur _ s1 w Hx).
      rewrite Hf. apply N.ltb_ge in Hn. now rewrite Hn.
  - exact next_line_unique.
  - intros k cur cur0 w w0 n s1 extra Hr. exact (main_count_loop_accepts k cur cur0 w w0 Hr n s1 extra).
  - induction fuel as [|fuel IH]; intros cur w w' n; [discriminate|].
    destruct (extract_size_t cur (cin w)) as [v s1] eqn:Hx.
    rewrite (main_count_loop_turn fuel cur v s1 w Hx).
    destruct (fail s1) eqn:Hf.
    + intros H. apply IH in H as (Hn & k & cur0 & w0 & Hk & Hr & Hrest).
      split; [exact Hn|]. exists (S k), cur0, w0. split; [lia|].
      split; [|exact Hrest].
      exact (rejected_counts_unparsed k cur w v s1 _ cur0 w0 Hx Hf
               (next_line_ignore_clear s1) Hr).
    + destruct v as [m|]; [|discriminate].
      destruct (16 <? m)%N eqn:Hm.
      * intros H. apply IH in H as (Hn & k & cur0 & w0 & Hk & Hr & Hrest).
        split; [exact Hn|]. exists (S k), cur0, w0. split; [lia|].
        split; [|exact Hrest]. apply N.ltb_lt in Hm.
        exact (rejected_counts_exceeded k cur w m s1 _ cur0 w0 Hx Hf Hm
                 (next_line_ignore_clear s1) Hr).
      * intros [= <- <-]. simpl. apply N.ltb_ge in Hm. split; [exact Hm|].
        exists 0, cur, w. split; [lia|]. split; [constructor|].
        split; [exact Hx|]. split; [exact Hf | reflexivity].
Qed.

Lemma main_legend_printed (w : world) :
  main_legend w = Returned tt (printed legend_text w).
Proof.
  unfold main_legend. step_print. rewrite endl_printed, printed_printed.
  reflexivity.
Qed.

Lemma main_count_loop_rejects_witness :
  main_count_loop 3 None
    (start_world ("abc" ++ nl ++ "20 7" ++ nl ++ "5" ++ nl)) =
    Returned 5%N
      (mkWorld (input nl)
         (("Enter number of operations: " ++ "Couldn't convert to number!" ++ nl
             ++ "Enter number of operations: "
             ++ "Exceeded operator capacity of 16!" ++ nl)
            ++ "Enter number of operations: ")
         EmptyString d0).
Proof.
  pose (w0 := start_world ("abc" ++ nl ++ "20 7" ++ nl ++ "5" ++ nl)).
  pose (w1 := mkWorld (input ("20 7" ++ nl ++ "5" ++ nl))
                ("Enter number of operations: " ++ "Couldn't convert to number!" ++ nl)
                EmptyString d0).
  pose (w2 := mkWorld (input ("5" ++ nl))
                ("Enter number of operations: " ++ "Couldn't convert to number!" ++ nl
                   ++ "Enter number of operations: "
                   ++ "Exceeded operator capacity of 16!" ++ nl)
                EmptyString d0).
  assert (Hline1 : next_line (mkIstream ("abc" ++ nl ++ "20 7" ++ nl ++ "5" ++ nl)
                                false true) (cin w1)).
  { split; [reflexivity|]. left. exists "abc". now repeat split. }
  assert (Hline2 : next_line (input (" 7" ++ nl ++ "5" ++ nl)) (cin w2)).
  { split; [reflexivity|]. left. exists " 7". now repeat split. }
  assert (Hturns : rejected_counts 2 None w0 (Some 20%N) w2).
  { apply (rejected_counts_unparsed 1 None w0 (Some 0%N) _ (cin w1) (Some 20%N) w2
             eq_refl eq_refl Hline1).
    change (rejected_counts 1 (Some 0%N) w1 (Some 20%N) w2).
    apply (rejected_counts_exceeded 0 (Some 0%N) w1 20%N _ (cin w2) (Some 20%N) w2
             eq_refl eq_refl eq_refl Hline2).
    change (rejected_counts 0 (Some 20%N) w2 (Some 20%N) w2).
    apply rejected_counts_none. }
  assert (Hle : (5 <= 16)%N) by discriminate.
  exact (proj1 (proj2 (proj2 main_count_loop_rejects))
           2 None (Some 20%N) w0 w2 5%N (input nl) 0 Hturns eq_refl eq_refl Hle).
Defined.

(** A whole session up to the end of the menu loop: a rejected count, a
    rejected batch, a listing and a calculation, then the selection 4. *)
Example main_session :
  main pow_unused put_whole 5
    (start_world ("my calculator" ++ nl ++ "20" ++ nl ++ "2" ++ nl
                    ++ "+ x" ++ nl ++ "+ - 3" ++ nl
                    ++ "1 3 10 + 5 - 3 = 4" ++ nl)) =
  Returned tt
    (mkWorld (input nl)
       ("Enter calculator's name: "
          ++ "Enter number of operations: Exceeded operator capacity of 16!" ++ nl
          ++ "Enter number of operations: " ++ legend_text
          ++ "Invalid operator!" ++ nl
          ++ "1. List supported operations" ++ nl ++ "2. List input format" ++ nl
          ++ "3. Start calculation" ++ nl ++ "4. Exit" ++ nl
          ++ "+ - Add" ++ nl ++ "- - Subtract" ++ nl
          ++ "1. List supported operations" ++ nl ++ "2. List input format" ++ nl
          ++ "3. Start calculation" ++ nl ++ "4. Exit" ++ nl
          ++ "12" ++ nl
          ++ "1. List supported operations" ++ nl ++ "2. List input format" ++ nl
          ++ "3. Start calculation" ++ nl ++ "4. Exit" ++ nl)
       EmptyString 1%float).
Proof. vm_compute. reflexivity. Qed.

(** * Further properties of the code *)

(** ** Operations *)

Lemma Operation_copyFrom_Value (v : variant) (nm sym : string) (o : Operation) :
  Operation_copyFrom v nm sym = Value o ->
  o = mkOperation v nm sym /\ nm <> EmptyString /\ sym <> EmptyString.
Proof.
  unfold Operation_copyFrom, Operation_assertValidity.
  destruct nm as [|c1 nm], sym as [|c2 sym]; simpl; try discriminate.
  intros [= <-]. repeat split; discriminate.
Qed.

Lemma Operation_copyFrom_valid (v : variant) (nm sym : string) :
  nm <> EmptyString -> sym <> EmptyString ->
  Operation_copyFrom v nm sym = Value (mkOperation v nm sym).
Proof.
  destruct nm as [|c1 nm], sym as [|c2 sym]; simpl; intros Hn Hs; try congruence.
  reflexivity.
Qed.

(** X1: every operation a program can hold has a non-empty name and a
    non-empty symbol: each constructor, [createNew] and each setter ends in
    [assertValidity]. *)
Theorem built_operation_valid :
  forall o : Operation, built_operation o -> valid_operation o.
Proof.
  intros o H. destruct H as [o Hin | sym o Hc | o o' _ Hc | nm o o' _ Hc | sym o o' _ Hc].
  - simpl in Hin.
    repeat (destruct Hin as [Hin | Hin];
            [apply Operation_copyFrom_Value in Hin as (-> & Hn & Hs); now split|]).
    destruct Hin.
  - unfold createOperation in Hc.
    repeat match type of Hc with
           | (if ?b then _ else _) = _ => destruct b
           end;
      try (apply Operation_copyFrom_Value in Hc as (-> & Hn & Hs); now split).
    discriminate.
  - apply Operation_copyFrom_Value in Hc as (-> & Hn & Hs). now split.
  - unfold setName in Hc.
    destruct (Operation_assertValidity nm (op_symbol o)) as [[]| |] eqn:Ha;
      simpl in Hc; try discriminate.
    injection Hc as <-. unfold Operation_assertValidity in Ha.
    destruct nm, (op_symbol o) eqn:Hs; simpl in Ha; try discriminate.
    split; simpl; try rewrite Hs; discriminate.
  - unfold setSymbol in Hc.
    destruct (Operation_assertValidity (op_name o) sym) as [[]| |] eqn:Ha;
      simpl in Hc; try discriminate.
    injection Hc as <-. unfold Operation_assertValidity in Ha.
    destruct (op_name o) eqn:Hn, sym; simpl in Ha; try discriminate.
    split; simpl; try rewrite Hn; discriminate.
Qed.

(** X2: [createOperation] returns an operation exactly for the six symbols
    of the legend, and the operation carries the symbol it was created
    from; for every other text it fails with the operator message. *)
Theorem createOperation_round_trip :
  forall operationSymbol : string,
    match createOperation operationSymbol with
    | Value o =>
        valid_symbol operationSymbol = true /\ getSymbol o = operationSymbol /\
        createNew o = Value o
    | Thrown msg =>
        valid_symbol operationSymbol = false /\ msg = "Invalid operator!"
    | Undefined => False
    end.
Proof.
  intros sym. unfold createOperation, valid_symbol.
  destruct (String.eqb_spec sym "+") as [->|_]; [now repeat split|].
  destruct (String.eqb_spec sym "-") as [->|_]; [now repeat split|].
  destruct (String.eqb_spec sym "*") as [->|_]; [now repeat split|].
  destruct (String.eqb_spec sym "/") as [->|_]; [now repeat split|].
  destruct (String.eqb_spec sym "**") as [->|_]; [now repeat split|].
  destruct (String.eqb_spec sym "V") as [->|_]; [now repeat split|].
  now split.
Qed.

Section OperationStatements.

Variable pow : double -> double -> double.

(** X3: on a valid operation a setter given the empty string fails with
    its message; given any other string it returns the operation with that
    field replaced, the other field kept, and [execute] unchanged: what an
    operation computes does not depend on its name or symbol. *)
Theorem setters_keep_execute :
  forall (o : Operation) (text : string),
    valid_operation o ->
    (text = EmptyString ->
     setName text o = Thrown "Invalid operation name!" /\
     setSymbol text o = Thrown "Invalid operation symbol!") /\
    (text <> EmptyString ->
     exists o1 o2,
       setName text o = Value o1 /\ setSymbol text o = Value o2 /\
       getName o1 = text /\ getSymbol o1 = getSymbol o /\
       getSymbol o2 = text /\ getName o2 = getName o /\
       forall a b, execute pow o1 a b = execute pow o a b /\
                   execute pow o2 a b = execute pow o a b).
Proof.
  intros [v nm sym] text [Hn Hs]. simpl in Hn, Hs. split.
  - intros ->. unfold setName, setSymbol, Operation_assertValidity. simpl.
    destruct nm; [congruence|]. destruct sym; [congruence|]. now split.
  - intros Ht. unfold setName, setSymbol, Operation_assertValidity. simpl.
    destruct text; [congruence|]. destruct nm; [congruence|].
    destruct sym; [congruence|]. simpl.
    eexists. eexists. repeat split.
Qed.

End OperationStatements.

Lemma built_operation_valid_witness : valid_operation op_power.
Proof.
  apply built_operation_valid. apply (built_created "**"). reflexivity.
Defined.

Lemma setters_keep_execute_witness :
  setSymbol "plus" op_add = Value (mkOperation Add "Add" "plus") /\
  execute pow_unused (mkOperation Add "Add" "plus") 2%float 3%float = Value 5%float.
Proof.
  assert (Hv : valid_operation op_add) by (split; discriminate).
  assert (Ht : "plus" <> EmptyString) by discriminate.
  destruct (proj2 (setters_keep_execute pow_unused op_add "plus" Hv) Ht)
    as (o1 & o2 & _ & H2 & _ & _ & _ & _ & He).
  injection H2 as <-. split; [reflexivity|].
  rewrite (proj2 (He 2%float 3%float)). reflexivity.
Defined.

(** ** Calculators *)

Lemma copy_slots_source (src : op_array) (todo : nat) :
  forall (dst dst' : op_array) (i : nat),
    copy_slots src dst i todo = Value dst' ->
    exists l, stored_from src i todo = Some l.
Proof.
  induction todo as [|todo IH]; intros dst dst' i; simpl.
  - eauto.
  - unfold read_slot. destruct (src !! i) as [[o|]|]; simpl; try discriminate.
    destruct (write_slot dst i o) as [d| |]; simpl; try discriminate.
    intros H. apply IH in H as [l Hl]. rewrite Hl. simpl. eauto.
Qed.

Lemma stored_from_length (a : op_array) (todo : nat) :
  forall (i : nat) (l : list Operation),
    stored_from a i todo = Some l -> length l = todo.
Proof.
  induction todo as [|todo IH]; intros i l; simpl.
  - now intros [= <-].
  - destruct (a !! i) as [[o|]|]; try discriminate.
    destruct (stored_from a (S i) todo) as [l'|] eqn:Hl; simpl; [|discriminate].
    intros [= <-]. simpl. f_equal. eauto.
Qed.

Lemma stored_from_snoc (a : op_array) (x : Operation) (todo : nat) :
  forall (i : nat) (l : list Operation),
    stored_from a i todo = Some l ->
    a !! (i + todo) = Some (Some x) ->
    stored_from a i (S todo) = Some (l ++ [x])%list.
Proof.
  induction todo as [|todo IH]; intros i l.
  - simpl. intros [= <-]. rewrite Nat.add_0_r. now intros ->.
  - intros Hl Hx. change (stored_from a i (S (S todo)))
      with (match a !! i with
            | Some (Some o) => cons o <$> stored_from a (S i) (S todo)
            | _ => None
            end).
    simpl in Hl. destruct (a !! i) as [[o|]|]; try discriminate.
    destruct (stored_from a (S i) todo) as [l'|] eqn:Hl'; simpl in Hl; [|discriminate].
    injection Hl as <-.
    rewrite (IH (S i) l' Hl') by (now replace (S i + todo) with (i + S todo) by lia).
    reflexivity.
Qed.

(** What every calculator a program can hold satisfies. *)
Lemma constructed_sound (c : Calculator) :
  constructed c ->
  invariant c /\ capacityForOperations c = MAX_OPERATORS /\
  length (operations c) = capacityForOperations c /\
  exists l, stored c = Some l.
Proof.
  induction 1 as [c H | nm n ops c Hn H | other c Ho IH H | op this this' Ht IH H].
  - rewrite Calculator_default_throws in H. discriminate.
  - pose proof (copyFrom_Value _ _ _ _ _ H) as (_ & Hcnt & Hcap & Hlen & Hinv).
    split; [exact Hinv|]. split; [exact Hcap|]. split; [congruence|].
    unfold Calculator_new, copyFrom in H.
    destruct (copy_slots ops (replicate MAX_OPERATORS None) 0 n) as [slots| |] eqn:Hc;
      simpl in H; try discriminate.
    destruct (assertValidity nm MAX_OPERATORS) as [[]| |]; simpl in H; try discriminate.
    injection H as <-. unfold stored. simpl.
    destruct (copy_slots_source _ _ _ _ _ Hc) as [l Hl].
    destruct (copy_slots_stored ops n (replicate MAX_OPERATORS None) 0 l Hl)
      as (dst & Hc' & Hst & _).
    { rewrite length_replicate. lia. }
    rewrite Hc in Hc'. injection Hc' as <-. eauto.
  - destruct IH as (Hinv & Hcap & Hlen & l & Hl).
    pose proof (copyFrom_Value _ _ _ _ _ H) as (_ & Hcnt' & Hcap' & Hlen' & Hinv').
    split; [exact Hinv'|]. split; [congruence|]. split; [congruence|].
    unfold Calculator_copy, copyFrom in H.
    destruct (copy_slots (operations other) _ 0 _) as [slots| |] eqn:Hc;
      simpl in H; try discriminate.
    destruct (assertValidity _ _) as [[]| |]; simpl in H; try discriminate.
    injection H as <-. unfold stored. simpl.
    destruct (copy_slots_stored (operations other) (numberOfSupportedOperations other)
                (replicate (capacityForOperations other) None) 0 l Hl)
      as (dst & Hc' & Hst & _).
    { rewrite length_replicate. destruct Hinv. lia. }
    rewrite Hc in Hc'. injection Hc' as <-. eauto.
  - destruct IH as (Hinv & Hcap & Hlen & l & Hl).
    destruct (addOperation_append_invariant op this this' Hinv H) as [Hinv' Hcap'].
    apply addOperation_append_Value in H as (clone & _ & _ & Hlt & ->).
    split; [exact Hinv'|]. split; [simpl in *; congruence|].
    split; [simpl; now rewrite length_insert|].
    exists (l ++ [clone])%list. unfold stored. simpl.
    apply stored_from_snoc.
    + rewrite <- Hl. apply stored_from_frame. intros j Hj.
      apply list_lookup_insert_ne. lia.
    + simpl. now apply list_lookup_insert_eq.
Qed.

Lemma first_match_app (l1 l2 : list Operation) (sym : string) :
  first_match (l1 ++ l2) sym =
    match first_match l1 sym with
    | Some o => Some o
    | None => first_match l2 sym
    end.
Proof.
  unfold first_match. induction l1 as [|x l1 IH]; simpl; [reflexivity|].
  destruct (String.eqb (getSymbol x) sym); [reflexivity | exact IH].
Qed.

Section CalculatorStatements.

Variable pow : double -> double -> double.
Variable put_double : double -> string.

(** X4: in every calculator a program can hold each of the first
    [numberOfSupportedOperations] slots holds an operation, so
    [listSupportedOperations] returns having printed their lines and
    [calculate] is decided by the first match among them: neither reads a
    slot that was never written. *)
Theorem constructed_slots_initialised :
  forall c : Calculator,
    constructed c ->
    exists l,
      stored c = Some l /\ length l = numberOfSupportedOperations c /\
      (forall w, listSupportedOperations c w = Returned tt (printed (listing l) w)) /\
      (forall a b op,
         calculate pow c a b op =
           match first_match l op with
           | Some o => execute pow o a b
           | None => Value d0
           end).
Proof.
  intros c Hc. destruct (constructed_sound c Hc) as (_ & _ & _ & l & Hl).
  exists l. split; [exact Hl|]. split; [exact (stored_from_length _ _ _ _ Hl)|].
  split.
  - intros w. exact (listSupportedOperations_from_listing _ _ _ _ w Hl).
  - intros a b op. exact (calculate_first_match pow c l a b op Hl).
Qed.

(** X5: given at most [MAX_OPERATORS] operations in the first [n] slots of
    the array, the parameterized constructor fails with the name message
    for a null or empty name, and otherwise returns a calculator with that
    name, [n] operations, capacity [MAX_OPERATORS] and exactly those
    operations in order. *)
Theorem Calculator_new_outcomes :
  forall (nm : option string) (n : nat) (ops : op_array) (l : list Operation),
    n <= MAX_OPERATORS ->
    stored_from ops 0 n = Some l ->
    (nm = None \/ nm = Some EmptyString ->
     Calculator_new nm n ops = Thrown "Invalid calculator name!") /\
    (forall str, nm = Some str -> str <> EmptyString ->
     exists c,
       Calculator_new nm n ops = Value c /\ name c = Some str /\
       numberOfSupportedOperations c = n /\
       capacityForOperations c = MAX_OPERATORS /\ stored c = Some l).
Proof.
  intros nm n ops l Hn Hl. split.
  - intros Hnm. unfold Calculator_new, copyFrom.
    destruct (copy_slots_stored ops n (replicate MAX_OPERATORS None) 0 l Hl)
      as (dst & Hc & _); [rewrite length_replicate; lia|].
    rewrite Hc. now destruct Hnm as [-> | ->].
  - intros str -> Hstr.
    destruct (Calculator_new_stored str n ops l Hstr Hn Hl) as (c & Hc & Hst).
    exists c. pose proof (copyFrom_Value _ _ _ _ _ Hc) as (H1 & H2 & H3 & _).
    auto.
Qed.

(** X6: the copy constructor, applied to a calculator a program can hold,
    returns a calculator with the same name, count, capacity and stored
    operations; [calculate] gives the same result on both. *)
Theorem Calculator_copy_equivalent :
  forall other : Calculator,
    constructed other ->
    exists c,
      Calculator_copy other = Value c /\
      name c = name other /\
      numberOfSupportedOperations c = numberOfSupportedOperations other /\
      capacityForOperations c = capacityForOperations other /\
      stored c = stored other /\
      forall a b op, calculate pow c a b op = calculate pow other a b op.
Proof.
  intros other Ho.
  destruct (constructed_sound other Ho) as ([(str & Hnm & Hstr) Hcap Hcnt] & _ & _ & l & Hl).
  unfold Calculator_copy, copyFrom.
  destruct (copy_slots_stored (operations other) (numberOfSupportedOperations other)
              (replicate (capacityForOperations other) None) 0 l Hl)
    as (dst & Hc & Hst & _); [rewrite length_replicate; lia|].
  rewrite Hc. simpl.
  assert (Ha : assertValidity (name other) (capacityForOperations other) = Value tt).
  { apply assertValidity_Value. split; [eauto | exact Hcap]. }
  rewrite Ha. simpl. eexists. split; [reflexivity|]. simpl.
  repeat split; [unfold stored in *; simpl; congruence|].
  intros a b op.
  rewrite (calculate_first_match pow other l a b op Hl).
  now apply calculate_first_match.
Qed.

(** X7: below capacity the statements of [addOperation] put the clone
    behind the stored operations: a symbol that some stored operation
    already has is still answered by that operation, and the symbol of the
    new operation is answered by it when no stored operation has it. *)
Theorem addOperation_append_lookup :
  forall (op : Operation) (this : Calculator) (l : list Operation),
    valid_operation op ->
    stored this = Some l ->
    numberOfSupportedOperations this < length (operations this) ->
    numberOfSupportedOperations this <> capacityForOperations this ->
    exists this',
      addOperation_append op this = Value this' /\
      stored this' = Some (l ++ [op])%list /\
      (forall a b sym o,
         first_match l sym = Some o ->
         calculate pow this' a b sym = execute pow o a b) /\
      (forall a b,
         first_match l (getSymbol op) = None ->
         calculate pow this' a b (getSymbol op) = execute pow op a b).
Proof.
  intros op this l [Hn Hs] Hl Hlt Hne. unfold addOperation_append.
  apply Nat.eqb_neq in Hne. rewrite Hne. simpl.
  rewrite (createNew_valid op Hn Hs). simpl. unfold write_slot.
  destruct (decide (numberOfSupportedOperations this < length (operations this)))
    as [_|Hge]; [|lia]. simpl.
  eexists. split; [reflexivity|].
  assert (Hst : stored (mkCalculator (name this) (S (numberOfSupportedOperations this))
                          (capacityForOperations this)
                          (<[numberOfSupportedOperations this := Some op]>
                             (operations this))) = Some (l ++ [op])%list).
  { unfold stored. simpl. apply stored_from_snoc.
    - rewrite <- Hl. apply stored_from_frame. intros j Hj.
      apply list_lookup_insert_ne. lia.
    - simpl. now apply list_lookup_insert_eq. }
  split; [exact Hst|]. split.
  - intros a b sym o Hm. rewrite (calculate_first_match pow _ _ a b sym Hst).
    rewrite first_match_app, Hm. reflexivity.
  - intros a b Hm. rewrite (calculate_first_match pow _ _ a b _ Hst).
    rewrite first_match_app, Hm. unfold first_match. simpl.
    now rewrite String.eqb_refl.
Qed.

Lemma evaluate_plain (c : Calculator) (l : list Operation) :
  stored c = Some l ->
  forallb plain_arithmetic l = true ->
  forall (steps : list (string * double)) (n0 : double),
    exists r, evaluate pow c n0 steps = Value r.
Proof.
  intros Hl Hp. induction steps as [|[op n] steps IH]; intros n0.
  - exists n0. reflexivity.
  - rewrite evaluate_cons, (calculate_first_match pow c l n0 n op Hl).
    destruct (first_match l op) as [o|] eqn:Hm.
    + unfold first_match in Hm. apply find_some in Hm as [Hin _].
      rewrite forallb_forall in Hp. specialize (Hp o Hin).
      unfold plain_arithmetic in Hp. unfold execute.
      destruct (op_variant o); try discriminate; simpl; apply IH.
    + simpl. apply IH.
Qed.

(** X8: a calculator that holds only additions, subtractions and
    multiplications never ends a calculation in [terminate]: on every text
    that reads as an expression [startCalculation] returns, having printed
    one number and counted one success. *)
Theorem startCalculation_plain_returns :
  forall (c : Calculator) (l : list Operation) (w : world) (n0 : double)
         (steps : list (string * double)) (s' : istream) (extra : nat),
    stored c = Some l ->
    forallb plain_arithmetic l = true ->
    reads_expression (cin w) n0 steps s' ->
    exists r,
      evaluate pow c n0 steps = Value r /\
      startCalculation pow put_double (S (length steps + extra)) c w =
        Returned tt (mkWorld s' (cout w ++ put_double r ++ nl) (cerr w)
                       (numberOfSuccessfulCalculations w + d1)%float).
Proof.
  intros c l w n0 steps s' extra Hl Hp Hread.
  destruct (evaluate_plain c l Hl Hp steps n0) as [r Hr].
  exists r. split; [exact Hr|].
  exact (startCalculation_returns pow put_double c w n0 r steps s' extra Hread Hr).
Qed.

End CalculatorStatements.

(** ** Runs that return *)

Lemma bind_Returned_inv {A B} (m : proc A) (k : A -> proc B) (w w' : world) (b : B) :
  (m ≫= k) w = Returned b w' ->
  exists a w1, m w = Returned a w1 /\ k a w1 = Returned b w'.
Proof.
  unfold mbind, proc_bind, Process.bind.
  destruct (m w) as [a w1| | |]; try discriminate. eauto.
Qed.

Lemma from_cin_inv {A} (f : istream -> A * istream) (w w1 : world) (a : A) :
  from_cin f w = Returned a w1 ->
  exists s, f (cin w) = (a, s) /\ w1 = set_cin s w.
Proof.
  unfold from_cin. destruct (f (cin w)) as [a' s]. intros [= <- <-]. eauto.
Qed.

Lemma lift_inv {A} (o : outcome A) (w w1 : world) (a : A) :
  lift o w = Returned a w1 -> o = Value a /\ w1 = w.
Proof. destruct o; simpl; try discriminate. now intros [= <- <-]. Qed.

Lemma load_inv {A} (x : option A) (w w1 : world) (a : A) :
  load x w = Returned a w1 -> x = Some a /\ w1 = w.
Proof. destruct x; simpl; try discriminate. now intros [= <- <-]. Qed.

Lemma set_cin_same (w : world) : set_cin (cin w) w = w.
Proof. now destruct w. Qed.

(** An extraction that changes the string has passed the sentry. *)
Lemma extract_string_changed (cur op : string) (s s1 : istream) :
  extract_string cur s = (op, s1) -> op <> cur ->
  extract_string EmptyString s = (op, s1).
Proof.
  unfold extract_string. destruct (sentry s) as [s0 [|]].
  - intros H _. exact H.
  - intros [= <- <-] Hne. contradiction.
Qed.

(** On a stream that is not good an extraction leaves the variable as it
    was and the stream not good. *)
Lemma sentry_not_good (s : istream) :
  good s = false -> sentry s = (mkIstream (buffer s) (eofbit s) true, false).
Proof. unfold sentry. now intros ->. Qed.

Lemma good_failbit (b : string) (e : bool) : good (mkIstream b e true) = false.
Proof. unfold good. simpl. now rewrite orb_true_r. Qed.

Lemma extract_string_not_good (cur : string) (s : istream) :
  good s = false ->
  extract_string cur s = (cur, mkIstream (buffer s) (eofbit s) true).
Proof. intros H. unfold extract_string. now rewrite (sentry_not_good s H). Qed.

Lemma extract_double_not_good (cur : option double) (s : istream) :
  good s = false ->
  extract_double cur s = (cur, mkIstream (buffer s) (eofbit s) true).
Proof. intros H. unfold extract_double. now rewrite (sentry_not_good s H). Qed.

Lemma skipws_head (b rest : string) (ch : ascii) :
  skipws b = String ch rest -> isspace ch = false.
Proof.
  induction b as [|c0 b IH]; simpl; [discriminate|].
  destruct (isspace c0) eqn:Hc; [exact IH|]. now intros [= <- _].
Qed.

Section ReturnStatements.

Variable pow : double -> double -> double.
Variable put_double : double -> string.

Lemma startCalculation_loop_not_good (c : Calculator) (fuel : nat) :
  forall (result num2 : option double) (cur : string) (w w' : world)
         (r : option double),
    cur <> "=" -> good (cin w) = false ->
    startCalculation_loop pow fuel c result num2 cur w <> Returned r w'.
Proof.
  induction fuel as [|fuel IH]; intros result num2 cur w w' r Hcur Hg; [discriminate|].
  cbn [startCalculation_loop]. intros H.
  apply bind_Returned_inv in H as (op & w1 & Hop & H).
  apply from_cin_inv in Hop as (s1 & Hop & ->).
  rewrite (extract_string_not_good cur _ Hg) in Hop. injection Hop as <- <-.
  apply String.eqb_neq in Hcur. rewrite Hcur in H.
  apply bind_Returned_inv in H as (n2 & w2 & Hn & H).
  apply from_cin_inv in Hn as (s2 & Hn & ->).
  simpl in Hn. rewrite extract_double_not_good in Hn by apply good_failbit.
  injection Hn as <- <-.
  apply bind_Returned_inv in H as (a & w3 & Ha & H).
  apply load_inv in Ha as (_ & ->).
  apply bind_Returned_inv in H as (b & w4 & Hb & H).
  apply load_inv in Hb as (_ & ->).
  apply bind_Returned_inv in H as (x & w5 & Hx & H).
  apply lift_inv in Hx as (_ & ->).
  apply String.eqb_neq in Hcur.
  revert H. apply IH; [exact Hcur | apply good_failbit].
Qed.

(** An extraction of a string either fails, leaving the variable as it was
    and the stream not good, or stores a word that is not empty. *)
Lemma extract_string_cases (cur op : string) (s s1 : istream) :
  extract_string cur s = (op, s1) ->
  (op = cur /\ good s1 = false) \/
  (extract_string EmptyString s = (op, s1) /\ op <> EmptyString).
Proof.
  unfold extract_string, sentry. destruct (good s).
  - destruct (skipws (buffer s)) as [|ch rest] eqn:Hws.
    + intros [= <- <-]. now left.
    + cbn [buffer]. intros H. right. split; [exact H|].
      apply skipws_head in Hws. simpl in H. rewrite Hws in H.
      destruct (get_word rest) as [word rest']. injection H as <- _. discriminate.
  - intros [= <- <-]. left. split; [reflexivity | apply good_failbit].
Qed.

(** An extraction of a [double] that leaves the stream good has stored a
    number, whatever the variable held. *)
Lemma extract_double_good (cur v : option double) (s s2 : istream) :
  extract_double cur s = (v, s2) -> good s2 = true ->
  exists n, v = Some n /\ extract_double None s = (Some n, s2).
Proof.
  unfold extract_double. destruct (sentry s) as [s1 ok] eqn:Hs. destruct ok.
  - intros H Hg. destruct v as [n|]; [now exists n|]. exfalso.
    destruct (lex_float (buffer s1)) as [[[[neg ints] frac] expo] rest].
    repeat match type of H with
           | (if ?b then _ else _) = _ => destruct b
           | match ?x with _ => _ end = _ => destruct x
           end; discriminate H.
  - intros [= <- <-] Hg. exfalso. unfold sentry in Hs.
    destruct (good s).
    + destruct (skipws (buffer s)); [|discriminate Hs].
      injection Hs as <-. discriminate Hg.
    + injection Hs as <-. rewrite good_failbit in Hg. discriminate Hg.
Qed.

(** A loop that returns has read operator and operand pairs and then the
    token [=], and returns the fold of [calculate] over the pairs. *)
Lemma startCalculation_loop_reads (c : Calculator) (fuel : nat) :
  forall (r0 : double) (num2 : option double) (cur : string) (w w' : world)
         (res : option double),
    cur <> "=" ->
    startCalculation_loop pow fuel c (Some r0) num2 cur w = Returned res w' ->
    exists steps s1 r,
      reads_steps (cin w) steps s1 /\
      extract_string EmptyString s1 = ("=", cin w') /\
      evaluate pow c r0 steps = Value r /\ res = Some r /\
      w' = set_cin (cin w') w /\ length steps < fuel.
Proof.
  induction fuel as [|fuel IH]; intros r0 num2 cur w w' res Hcur; [discriminate|].
  cbn [startCalculation_loop]. intros H.
  apply bind_Returned_inv in H as (op & w1 & Hop & H).
  apply from_cin_inv in Hop as (s1 & Hop & ->).
  destruct (String.eqb_spec op "=") as [->|Hne].
  - injection H as <- <-. exists [], (cin w), r0.
    split; [constructor|].
    split; [apply (extract_string_changed cur); [exact Hop | congruence]|].
    split; [reflexivity|]. split; [reflexivity|].
    split; [reflexivity | simpl; lia].
  - apply bind_Returned_inv in H as (v & w2 & Hn & H).
    apply from_cin_inv in Hn as (s2 & Hn & ->). cbn [cin set_cin] in Hn.
    apply bind_Returned_inv in H as (a & w3 & Ha & H).
    apply load_inv in Ha as ([= <-] & ->).
    apply bind_Returned_inv in H as (b & w4 & Hb & H).
    apply load_inv in Hb as (-> & ->).
    apply bind_Returned_inv in H as (x & w5 & Hx & H).
    apply lift_inv in Hx as (Hx & ->).
    destruct (good s2) eqn:Hg2;
      [|exfalso; revert H; apply startCalculation_loop_not_good;
        [exact Hne | exact Hg2]].
    destruct (extract_double_good _ _ _ _ Hn Hg2) as (n & [= <-] & Hn0).
    destruct (extract_string_cases _ _ _ _ Hop) as [[_ Hg1] | [Hop0 Hop1]].
    { rewrite (extract_double_not_good _ _ Hg1) in Hn. injection Hn as _ <-.
      rewrite good_failbit in Hg2. discriminate Hg2. }
    apply (IH _ _ _ _ _ _ Hne) in H
      as (steps & s3 & r & Hsteps & Heq & Hev & -> & Hw & Hlen).
    exists ((op, b) :: steps), s3, r.
    split; [exact (reads_cons _ _ _ _ _ _ _ Hop0 Hop1 Hne Hn0 Hsteps)|].
    split; [exact Heq|].
    split; [rewrite evaluate_cons, Hx; exact Hev|].
    split; [reflexivity|]. split; [rewrite Hw at 1; reflexivity | simpl; lia].
Qed.

(** X9: [startCalculation] returns only on a text that reads as an
    expression: a first operand, operator and operand pairs, and the token
    [=], each extracted with success. It has then written the left fold of
    [calculate] over the pairs and a newline on [cout], left [cerr] as it
    was and added one to the success counter. *)
Theorem startCalculation_return_effects :
  forall (fuel : nat) (c : Calculator) (w w' : world),
    startCalculation pow put_double fuel c w = Returned tt w' ->
    exists (n0 : double) (steps : list (string * double)) (r : double),
      reads_expression (cin w) n0 steps (cin w') /\
      length steps < fuel /\
      evaluate pow c n0 steps = Value r /\
      w' = mkWorld (cin w') (cout w ++ put_double r ++ nl) (cerr w)
             (numberOfSuccessfulCalculations w + d1)%float.
Proof.
  intros fuel c w w' H. unfold startCalculation in H.
  apply bind_Returned_inv in H as (v0 & w1 & H0 & H).
  apply from_cin_inv in H0 as (s0 & H0 & ->).
  apply bind_Returned_inv in H as (res & w2 & Hloop & H).
  destruct (good s0) eqn:Hg0;
    [|exfalso; revert Hloop; apply startCalculation_loop_not_good;
      [discriminate | exact Hg0]].
  destruct (extract_double_good _ _ _ _ H0 Hg0) as (n0 & -> & Hn0).
  apply startCalculation_loop_reads in Hloop
    as (steps & s1 & r & Hsteps & Heq & Hev & -> & Hw & Hlen); [|discriminate].
  apply bind_Returned_inv in H as ([] & w3 & Hc & H).
  injection Hc as <-.
  apply bind_Returned_inv in H as (r' & w4 & Hr & H).
  apply load_inv in Hr as ([= <-] & ->).
  apply bind_Returned_inv in H as ([] & w5 & Hp & H).
  injection Hp as <-. injection H as <-.
  exists n0, steps, r. cbn [cin cout cerr numberOfSuccessfulCalculations].
  split; [exists s0, s1; auto|]. split; [exact Hlen|]. split; [exact Hev|].
  rewrite Hw. cbn [set_cin cin cout cerr numberOfSuccessfulCalculations].
  now rewrite append_assoc.
Qed.


End ReturnStatements.

(** ** The loops of [main] *)

Lemma extract_string_end (cur : string) (s : istream) :
  buffer s = EmptyString ->
  exists s1, extract_string cur s = (cur, s1) /\ buffer s1 = EmptyString /\
             good s1 = false.
Proof.
  intros Hb. unfold extract_string, sentry. destruct (good s); rewrite ?Hb; simpl.
  - eexists. repeat split.
  - eexists. split; [reflexivity|]. split; [reflexivity | apply good_failbit].
Qed.

Lemma extract_size_t_end (cur : option N) (s : istream) :
  buffer s = EmptyString ->
  exists s1, extract_size_t cur s = (cur, s1) /\ buffer s1 = EmptyString /\
             fail s1 = true.
Proof.
  intros Hb. unfold extract_size_t, sentry. destruct (good s); rewrite ?Hb; simpl.
  - eexists. repeat split.
  - eexists. split; [reflexivity|]. split; reflexivity.
Qed.

Lemma extract_short_sentry (cur : option Z) (s : istream) :
  (sentry s).2 = false -> (extract_short cur s).1 = cur.
Proof.
  unfold extract_short. destruct (sentry s) as [s1 ok]. simpl. now intros ->.
Qed.

Lemma discard_line_end (w : world) :
  buffer (cin w) = EmptyString -> buffer (cin (discard_line w)) = EmptyString.
Proof.
  intros Hb. unfold discard_line. simpl. rewrite ignore_clear. simpl.
  now rewrite Hb.
Qed.

(** X11: when the input is exhausted the loop that reads the number of
    operations never ends: every turn fails to extract, reports it and
    prompts again, whatever the number of turns allowed. *)
Theorem main_count_loop_end_of_input :
  forall (fuel : nat) (cur : option N) (w : world),
    buffer (cin w) = EmptyString ->
    main_count_loop fuel cur w = OutOfFuel.
Proof.
  induction fuel as [|fuel IH]; intros cur w Hb; [reflexivity|].
  destruct (extract_size_t_end cur (cin w) Hb) as (s1 & Hx & Hb1 & Hf).
  rewrite (main_count_loop_turn fuel cur cur s1 w Hx), Hf.
  apply IH. simpl. rewrite ignore_clear. simpl. now rewrite Hb1.
Qed.

Lemma write_symbol_Value (l l' : list string) (i : nat) (sym : string) :
  write_symbol l i sym = Value l' -> i < length l /\ l' = <[i := sym]> l.
Proof.
  unfold write_symbol. destruct (decide (i < length l)); [|discriminate].
  intros [= <-]. auto.
Qed.

(** What a batch that returns has done. *)
Lemma main_batch_Returned (todo : nat) :
  forall (l : list string) (cur : string) (i : nat) (w w1 : world)
         (l' : list string) (valid : bool),
    main_batch l cur i todo w = Returned (l', valid) w1 ->
    length l' = length l /\
    (forall j, j < i -> l' !! j = l !! j) /\
    cerr w1 = cerr w /\
    numberOfSuccessfulCalculations w1 = numberOfSuccessfulCalculations w /\
    (if valid then
       cout w1 = cout w /\ i + todo <= length l \/ todo = 0 /\ cout w1 = cout w
     else cout w1 = cout w ++ "Invalid operator!" ++ nl) /\
    (valid = true ->
     forall j, i <= j < i + todo ->
               exists sym, l' !! j = Some sym /\ valid_symbol sym = true).
Proof.
  induction todo as [|todo IH]; intros l cur i w w1 l' valid; cbn [main_batch].
  - intros [= <- <- <-]. repeat split; auto. intros _ j Hj. lia.
  - intros H. apply bind_Returned_inv in H as (sym & w2 & Hs & H).
    apply from_cin_inv in Hs as (s1 & Hs & ->).
    destruct (valid_symbol sym) eqn:Hv.
    + apply bind_Returned_inv in H as (l2 & w3 & Hw & H).
      apply lift_inv in Hw as (Hw & ->).
      apply write_symbol_Value in Hw as (Hi & ->).
      apply IH in H as (Hlen & Hfr & Herr & Hcnt & Hout & Hval).
      rewrite length_insert in Hlen, Hout.
      split; [exact Hlen|]. split.
      { intros j Hj. rewrite (Hfr j) by lia. apply list_lookup_insert_ne. lia. }
      split; [exact Herr|]. split; [exact Hcnt|]. split.
      { destruct valid; [|exact Hout]. left.
        destruct Hout as [[Ho Hb] | [-> Ho]]; split; auto; lia. }
      intros Hvalid j Hj. destruct (decide (j = i)) as [->|Hne].
      * exists sym. split; [|exact Hv].
        rewrite (Hfr i) by lia. now apply list_lookup_insert_eq.
      * apply Hval; [exact Hvalid | lia].
    + rewrite (bind_Returned _ _ _ _ _ (print_printed _ _)) in H.
      rewrite (bind_Returned _ _ _ _ _ (endl_printed _)) in H.
      injection H as <- <- <-. simpl. repeat split; auto.
      * now rewrite append_assoc.
      * discriminate.
Qed.

(** X12: the loop that reads the symbols returns only an array whose first
    [numberOfOperations] entries are symbols of the legend; it writes
    nothing on [cerr] and leaves the success counter alone. *)
Theorem main_symbols_loop_valid :
  forall (fuel numberOfOperations : nat) (l l' : list string) (w w' : world),
    main_symbols_loop fuel numberOfOperations l w = Returned l' w' ->
    length l' = length l /\
    cerr w' = cerr w /\
    numberOfSuccessfulCalculations w' = numberOfSuccessfulCalculations w /\
    forall j, j < numberOfOperations ->
              exists sym, l' !! j = Some sym /\ valid_symbol sym = true.
Proof.
  induction fuel as [|fuel IH]; intros n l l' w w'; [discriminate|].
  cbn [main_symbols_loop]. intros H.
  apply bind_Returned_inv in H as ([l1 valid] & w1 & Hb & H).
  apply main_batch_Returned in Hb as (Hlen & _ & Herr & Hcnt & _ & Hval).
  rewrite (bind_Returned _ _ _ _ _ (on_cin_eq clear _)) in H.
  rewrite (bind_Returned _ _ _ _ _ (on_cin_eq ignore _)) in H.
  destruct valid.
  - injection H as <- <-. simpl. repeat split; auto.
    intros j Hj. apply Hval; [reflexivity | lia].
  - apply IH in H as (Hlen' & Herr' & Hcnt' & Hv). simpl in *.
    repeat split; try congruence. exact Hv.
Qed.

(** X13: when the input is exhausted and at least one symbol is asked
    for, the loop that reads the symbols never ends: every batch is
    rejected at its first symbol. *)
Theorem main_symbols_loop_end_of_input :
  forall (fuel n : nat) (l : list string) (w : world),
    buffer (cin w) = EmptyString ->
    main_symbols_loop fuel (S n) l w = OutOfFuel.
Proof.
  induction fuel as [|fuel IH]; intros n l w Hb; [reflexivity|].
  destruct (extract_string_end EmptyString (cin w) Hb) as (s1 & Hx & Hb1 & _).
  cbn [main_symbols_loop main_batch].
  rewrite (bind_Returned _ _ w
             (printed ("Invalid operator!" ++ nl) (set_cin s1 w)) (l, false)).
  - rewrite (bind_Returned _ _ _ _ _ (on_cin_eq clear _)).
    rewrite (bind_Returned _ _ _ _ _ (on_cin_eq ignore _)).
    apply IH. simpl. rewrite ignore_clear. simpl. now rewrite Hb1.
  - rewrite (bind_Returned _ _ w (set_cin s1 w) EmptyString)
      by (now apply from_cin_eq).
    change (valid_symbol EmptyString) with false. cbv iota.
    step_print. reflexivity.
Qed.

(** A batch on a stream that is not good stores the symbol it holds. *)
Lemma main_batch_not_good (todo : nat) :
  forall (l : list string) (cur : string) (i : nat) (w : world),
    good (cin w) = false -> valid_symbol cur = true ->
    i + todo <= length l ->
    exists l' s1,
      main_batch l cur i todo w = Returned (l', true) (set_cin s1 w) /\
      length l' = length l /\
      (forall j, i <= j < i + todo -> l' !! j = Some cur) /\
      (forall j, j < i -> l' !! j = l !! j).
Proof.
  induction todo as [|todo IH]; intros l cur i w Hg Hv Hb; cbn [main_batch].
  - exists l, (cin w). rewrite set_cin_same. repeat split; auto. intros j Hj. lia.
  - rewrite (bind_Returned _ _ w
               (set_cin (mkIstream (buffer (cin w)) (eofbit (cin w)) true) w) cur)
      by (apply from_cin_eq; now apply extract_string_not_good).
    rewrite Hv. unfold write_symbol.
    destruct (decide (i < length l)) as [_|Hge]; [|lia].
    set (W := set_cin (mkIstream (buffer (cin w)) (eofbit (cin w)) true) w).
    rewrite (bind_Returned (lift (Value (<[i := cur]> l))) _ W W _ eq_refl).
    subst W.
    destruct (IH (<[i := cur]> l) cur (S i)
                (set_cin (mkIstream (buffer (cin w)) (eofbit (cin w)) true) w))
      as (l' & s1 & Hrun & Hlen & Hfill & Hfr).
    { apply good_failbit. } { exact Hv. } { rewrite length_insert. lia. }
    exists l', s1. rewrite Hrun. rewrite length_insert in Hlen.
    split; [reflexivity|]. split; [exact Hlen|]. split.
    + intros j Hj. destruct (decide (j = i)) as [->|Hne].
      * rewrite (Hfr i) by lia. apply list_lookup_insert_eq. lia.
      * apply Hfill. lia.
    + intros j Hj. rewrite (Hfr j) by lia. apply list_lookup_insert_ne. lia.
Qed.

(** X14: when a valid symbol is the last thing on the input, the rest of
    the batch is filled with copies of it and the batch is accepted: the
    extractions that fail leave [operationSymbol] as it was, and the loop
    does not test the stream. *)
Theorem main_batch_cut_short :
  forall (l : list string) (cur sym : string) (i todo : nat) (w : world)
         (s1 : istream),
    extract_string cur (cin w) = (sym, s1) ->
    valid_symbol sym = true ->
    good s1 = false ->
    i + S todo <= length l ->
    exists l' w1,
      main_batch l cur i (S todo) w = Returned (l', true) w1 /\
      cout w1 = cout w /\
      length l' = length l /\
      (forall j, i <= j < i + S todo -> l' !! j = Some sym) /\
      (forall j, j < i -> l' !! j = l !! j).
Proof.
  intros l cur sym i todo w s1 Hx Hv Hg Hb. cbn [main_batch].
  rewrite (bind_Returned _ _ w (set_cin s1 w) sym) by (now apply from_cin_eq).
  rewrite Hv. unfold write_symbol.
  destruct (decide (i < length l)) as [_|Hge]; [|lia].
  rewrite (bind_Returned (lift (Value (<[i := sym]> l))) _ (set_cin s1 w)
             (set_cin s1 w) _ eq_refl).
  destruct (main_batch_not_good todo (<[i := sym]> l) sym (S i) (set_cin s1 w))
    as (l' & s2 & Hrun & Hlen & Hfill & Hfr).
  { exact Hg. } { exact Hv. } { rewrite length_insert. lia. }
  exists l', (set_cin s2 (set_cin s1 w)). rewrite length_insert in Hlen.
  split; [exact Hrun|]. split; [reflexivity|]. split; [exact Hlen|]. split.
  - intros j Hj. destruct (decide (j = i)) as [->|Hne].
    + rewrite (Hfr i) by lia. apply list_lookup_insert_eq. lia.
    + apply Hfill. lia.
  - intros j Hj. rewrite (Hfr j) by lia. apply list_lookup_insert_ne. lia.
Qed.

(** ** From the symbols to the menu *)

Lemma createOperation_valid (sym : string) :
  valid_symbol sym = true ->
  exists o, createOperation sym = Value o /\ getSymbol o = sym.
Proof.
  unfold createOperation, valid_symbol.
  destruct (String.eqb_spec sym "+") as [->|_]; [eexists; now split|].
  destruct (String.eqb_spec sym "-") as [->|_]; [eexists; now split|].
  destruct (String.eqb_spec sym "*") as [->|_]; [eexists; now split|].
  destruct (String.eqb_spec sym "/") as [->|_]; [eexists; now split|].
  destruct (String.eqb_spec sym "**") as [->|_]; [eexists; now split|].
  destruct (String.eqb_spec sym "V") as [->|_]; [eexists; now split|].
  discriminate.
Qed.

(** The loop that creates the operations succeeds on valid symbols and
    fills the slots with operations of those symbols. *)
Lemma main_create_Value (l : list string) (todo : nat) :
  forall (ops : op_array) (i : nat),
    (forall j, i <= j < i + todo ->
               exists sym, l !! j = Some sym /\ valid_symbol sym = true) ->
    i + todo <= length ops ->
    exists ops' ol,
      main_create l ops i todo = Value ops' /\
      stored_from ops' i todo = Some ol /\
      (forall k o, ol !! k = Some o -> l !! (i + k) = Some (getSymbol o)) /\
      (forall j, j < i -> ops' !! j = ops !! j).
Proof.
  induction todo as [|todo IH]; intros ops i Hv Hb; cbn [main_create].
  - exists ops, []. repeat split; auto. intros k o H. now rewrite lookup_nil in H.
  - destruct (Hv i ltac:(lia)) as (sym & Hsym & Hvalid). rewrite Hsym. simpl.
    destruct (createOperation_valid sym Hvalid) as (o & Ho & Hos). rewrite Ho. simpl.
    unfold write_slot. destruct (decide (i < length ops)) as [_|Hge]; [|lia]. simpl.
    destruct (IH (<[i := Some o]> ops) (S i)) as (ops' & ol & Hrun & Hst & Hsyms & Hfr).
    { intros j Hj. apply Hv. lia. }
    { rewrite length_insert. lia. }
    exists ops', (o :: ol). split; [exact Hrun|]. split.
    + simpl. rewrite (Hfr i) by lia. rewrite list_lookup_insert_eq by lia.
      now rewrite Hst.
    + split.
      * intros [|k] o'; simpl.
        -- intros [= <-]. now rewrite Nat.add_0_r, Hos.
        -- intros Hk. replace (i + S k) with (S i + k) by lia. now apply Hsyms.
      * intros j Hj. rewrite (Hfr j) by lia. apply list_lookup_insert_ne. lia.
Qed.

Lemma Calculator_new_empty_name (n : nat) (ops : op_array) (l : list Operation) :
  n <= MAX_OPERATORS -> stored_from ops 0 n = Some l ->
  Calculator_new (Some EmptyString) n ops = Thrown "Invalid calculator name!".
Proof.
  intros Hn Hl. unfold Calculator_new, copyFrom.
  destruct (copy_slots_stored ops n (replicate MAX_OPERATORS None) 0 l Hl)
    as (dst & Hc & _); [rewrite length_replicate; lia|].
  now rewrite Hc.
Qed.

(** A selection other than 1, 2, 3 and 4 takes the [default] label. *)
Lemma switch_default {A} (v : Z) (a1 a2 a3 a4 a : A) :
  v <> 1%Z -> v <> 2%Z -> v <> 3%Z -> v <> 4%Z ->
  match v with
  | 1%Z => a1 | 2%Z => a2 | 3%Z => a3 | 4%Z => a4 | _ => a
  end = a.
Proof.
  intros H1 H2 H3 H4. destruct v as [|p|p]; try reflexivity.
  destruct p as [[p|p|]|[p|[p|p|]|]|]; try reflexivity; contradiction.
Qed.

Section MenuStatements.

Variable pow : double -> double -> double.
Variable put_double : double -> string.

(** X15: after the symbols have been read, [main] reaches the menu loop
    unless the name is empty: every call of [createOperation] returns, so
    its operator failure cannot occur, and the constructor is given at most
    [MAX_OPERATORS] operations. With an empty name the run ends in
    [terminate] with the name message, after the whole setup. *)
Theorem main_run_reaches_menu :
  forall (fuel : nat) (calculatorName : string) (n : nat) (l : list string)
         (w : world),
    n <= MAX_OPERATORS ->
    (forall j, j < n -> exists sym, l !! j = Some sym /\ valid_symbol sym = true) ->
    (calculatorName = EmptyString ->
     main_run pow put_double fuel calculatorName n l w =
       Terminated (mkWorld (cin w) (cout w)
                     (cerr w ++ "Invalid calculator name!" ++ nl)
                     (numberOfSuccessfulCalculations w))) /\
    (calculatorName <> EmptyString ->
     exists c ol,
       constructed c /\ name c = Some calculatorName /\
       stored c = Some ol /\ length ol = n /\
       (forall k o, ol !! k = Some o -> l !! k = Some (getSymbol o)) /\
       main_run pow put_double fuel calculatorName n l w =
         main_menu_loop pow put_double fuel c w).
Proof.
  intros fuel nm n l w Hn Hv.
  destruct (main_create_Value l n (replicate MAX_OPERATORS None) 0)
    as (ops & ol & Hrun & Hst & Hsyms & _).
  { intros j Hj. apply Hv. lia. }
  { rewrite length_replicate. lia. }
  unfold main_run. rewrite Hrun.
  rewrite (bind_Returned (lift (Value ops)) _ w w ops eq_refl).
  split.
  - intros ->. rewrite (Calculator_new_empty_name n ops ol Hn Hst). reflexivity.
  - intros Hnm.
    destruct (Calculator_new_stored nm n ops ol Hnm Hn Hst) as (c & Hc & Hstc).
    exists c, ol. split; [exact (constructed_new _ _ _ _ Hn Hc)|].
    pose proof (copyFrom_Value _ _ _ _ _ Hc) as (Hname & _).
    split; [exact Hname|]. split; [exact Hstc|].
    split; [exact (stored_from_length _ _ _ _ Hst)|]. split; [exact Hsyms|].
    rewrite Hc. reflexivity.
Qed.

(** X16: a turn of the menu prints the four lines and reads a [short].
    The selection 4 leaves the loop; the selection 1 prints the lines of
    the stored operations and goes on; any selection other than 1 to 4
    (zero is what text that is not a number stores) is reported, the stream
    is cleared, the rest of the line dropped, and the loop goes on. *)
Theorem main_menu_loop_turn :
  forall (fuel : nat) (calc : Calculator) (w : world) (v : Z) (s1 : istream),
    extract_short None (cin w) = (Some v, s1) ->
    (v = 4%Z ->
     main_menu_loop pow put_double (S fuel) calc w =
       Returned tt (mkWorld s1 (cout w ++ menu_text) (cerr w)
                      (numberOfSuccessfulCalculations w))) /\
    (forall ol, v = 1%Z -> stored calc = Some ol ->
     main_menu_loop pow put_double (S fuel) calc w =
       main_menu_loop pow put_double fuel calc
         (mkWorld s1 (cout w ++ menu_text ++ listing ol) (cerr w)
            (numberOfSuccessfulCalculations w))) /\
    (v <> 1%Z -> v <> 2%Z -> v <> 3%Z -> v <> 4%Z ->
     main_menu_loop pow put_double (S fuel) calc w =
       main_menu_loop pow put_double fuel calc
         (discard_line
            (mkWorld s1 (cout w ++ menu_text ++ "Invalid option, try again." ++ nl)
               (cerr w) (numberOfSuccessfulCalculations w)))).
Proof.
  intros fuel calc w v s1 Hx.
  assert (Hhead :
            main_menu_loop pow put_double (S fuel) calc w =
            ((match v with
              | 1 => listSupportedOperations calc
              | 2 => listInputFormat calc
              | 3 => startCalculation pow put_double fuel calc
              | 4 => mret tt
              | _ => print "Invalid option, try again." ;; endl ;;
                     on_cin clear ;; on_cin ignore
              end)%Z ;;
             if (v =? 4)%Z then mret tt
             else main_menu_loop pow put_double fuel calc)
              (mkWorld s1 (cout w ++ menu_text) (cerr w)
                 (numberOfSuccessfulCalculations w))).
  { cbn [main_menu_loop]. step_print.
    rewrite (bind_Returned _ _ _
               (set_cin s1 (printed menu_text w)) (Some v))
      by (apply from_cin_eq; exact Hx).
    rewrite (bind_Returned (load (Some v)) _ _ _ v eq_refl). reflexivity. }
  split; [|split].
  - intros ->. rewrite Hhead. reflexivity.
  - intros ol -> Hol. rewrite Hhead.
    rewrite (bind_Returned _ _ _ _ _
               (listSupportedOperations_from_listing _ _ _ _ _ Hol)).
    cbn [Z.eqb Pos.eqb]. f_equal. unfold printed. simpl. now rewrite append_assoc.
  - intros H1 H2 H3 H4. rewrite Hhead. rewrite switch_default by assumption.
    assert (H4' : (v =? 4)%Z = false) by now apply Z.eqb_neq. rewrite H4'.
    set (W := mkWorld s1 (cout w ++ menu_text) (cerr w)
                (numberOfSuccessfulCalculations w)).
    assert (Hm : (print "Invalid option, try again." ;; endl ;;
                  on_cin clear ;; on_cin ignore) W =
                 Returned tt
                   (discard_line (printed ("Invalid option, try again." ++ nl) W))).
    { step_print. rewrite (bind_Returned _ _ _ _ _ (on_cin_eq clear _)).
      reflexivity. }
    rewrite (bind_Returned _ _ _ _ _ Hm). f_equal.
    unfold discard_line, set_cin, printed, W. simpl. now rewrite !append_assoc.
Qed.

(** X17: when no selection can be extracted (the stream is not good, or
    only white space is left on the input), the menu reads the variable
    [chosenOption], which was never given a value. *)
Theorem main_menu_loop_end_of_input :
  forall (fuel : nat) (calc : Calculator) (w : world),
    (sentry (cin w)).2 = false ->
    main_menu_loop pow put_double (S fuel) calc w = UndefinedBehaviour.
Proof.
  intros fuel calc w Hs. cbn [main_menu_loop]. step_print.
  pose proof (extract_short_sentry None (cin w) Hs) as Hx.
  destruct (extract_short None (cin w)) as [v s1] eqn:He. simpl in Hx. subst v.
  rewrite (bind_Returned _ _ _ (set_cin s1 (printed menu_text w)) None)
    by (apply from_cin_eq; exact He).
  reflexivity.
Qed.

End MenuStatements.

(** ** The further statements on concrete data *)

Lemma constructed_calculator_of_two :
  constructed (calculator_of [op_add; op_subtract]).
Proof.
  apply (constructed_new (Some "calc") 2 [Some op_add; Some op_subtract]).
  - unfold MAX_OPERATORS. lia.
  - reflexivity.
Qed.

Lemma constructed_slots_initialised_witness :
  exists l,
    stored (calculator_of [op_add; op_subtract]) = Some l /\
    length l = 2 /\
    (forall w, listSupportedOperations (calculator_of [op_add; op_subtract]) w =
               Returned tt (printed (listing l) w)) /\
    (forall a b op,
       calculate pow_unused (calculator_of [op_add; op_subtract]) a b op =
         match first_match l op with
         | Some o => execute pow_unused o a b
         | None => Value d0
         end).
Proof.
  exact (constructed_slots_initialised pow_unused _ constructed_calculator_of_two).
Defined.

Lemma Calculator_new_outcomes_witness :
  Calculator_new None 1 [Some op_add] = Thrown "Invalid calculator name!" /\
  exists c,
    Calculator_new (Some "calc") 1 [Some op_add] = Value c /\
    name c = Some "calc" /\ numberOfSupportedOperations c = 1 /\
    capacityForOperations c = MAX_OPERATORS /\ stored c = Some [op_add].
Proof.
  assert (Hn : 1 <= MAX_OPERATORS) by (unfold MAX_OPERATORS; lia).
  split.
  - apply (proj1 (Calculator_new_outcomes None 1 [Some op_add] [op_add] Hn eq_refl)).
    now left.
  - apply (proj2 (Calculator_new_outcomes (Some "calc") 1 [Some op_add] [op_add]
                    Hn eq_refl) "calc" eq_refl).
    discriminate.
Defined.

Lemma Calculator_copy_equivalent_witness :
  exists c,
    Calculator_copy (calculator_of [op_add; op_subtract]) = Value c /\
    name c = Some "calc" /\
    numberOfSupportedOperations c = 2 /\
    capacityForOperations c = MAX_OPERATORS /\
    stored c = stored (calculator_of [op_add; op_subtract]) /\
    forall a b op,
      calculate pow_unused c a b op =
      calculate pow_unused (calculator_of [op_add; op_subtract]) a b op.
Proof.
  exact (Calculator_copy_equivalent pow_unused _ constructed_calculator_of_two).
Defined.

Lemma addOperation_append_lookup_witness :
  exists this',
    addOperation_append op_multiply (calculator_of [op_add]) = Value this' /\
    stored this' = Some [op_add; op_multiply] /\
    calculate pow_unused this' 2%float 3%float "*" = Value 6%float.
Proof.
  assert (Hv : valid_operation op_multiply) by (split; discriminate).
  assert (Hlt : numberOfSupportedOperations (calculator_of [op_add])
                < length (operations (calculator_of [op_add])))
    by (unfold calculator_of, MAX_OPERATORS; simpl; lia).
  assert (Hne : numberOfSupportedOperations (calculator_of [op_add])
                <> capacityForOperations (calculator_of [op_add]))
    by (unfold calculator_of, MAX_OPERATORS; simpl; lia).
  destruct (addOperation_append_lookup pow_unused op_multiply
              (calculator_of [op_add]) [op_add] Hv eq_refl Hlt Hne)
    as (this' & Hrun & Hst & _ & Hnew).
  exists this'. split; [exact Hrun|]. split; [exact Hst|].
  exact (Hnew 2%float 3%float eq_refl).
Defined.

Lemma startCalculation_plain_returns_witness :
  exists r,
    evaluate pow_unused (calculator_of [op_add; op_multiply]) 2%float
      [("+", 3%float); ("*", 4%float)] = Value r /\
    startCalculation pow_unused put_whole 3 (calculator_of [op_add; op_multiply])
      (start_world "2 + 3 * 4 =") =
      Returned tt (mkWorld (mkIstream EmptyString true false)
                     (EmptyString ++ put_whole r ++ nl) EmptyString
                     (d0 + d1)%float).
Proof.
  refine (startCalculation_plain_returns pow_unused put_whole
            (calculator_of [op_add; op_multiply]) [op_add; op_multiply]
            (start_world "2 + 3 * 4 =") 2%float
            [("+", 3%float); ("*", 4%float)]
            (mkIstream EmptyString true false) 0 eq_refl eq_refl _).
  read_expression.
Defined.

Lemma startCalculation_return_effects_witness :
  exists (n0 : double) (steps : list (string * double)) (r : double),
    reads_expression (input "2 + 3 * 4 =") n0 steps (mkIstream EmptyString true false) /\
    length steps < 3 /\
    evaluate pow_unused (calculator_of [op_add; op_multiply]) n0 steps = Value r /\
    mkWorld (mkIstream EmptyString true false) ("20" ++ nl) EmptyString 1%float =
      mkWorld (mkIstream EmptyString true false)
        (EmptyString ++ put_whole r ++ nl) EmptyString (d0 + d1)%float.
Proof.
  assert (Hrun : startCalculation pow_unused put_whole 3
                   (calculator_of [op_add; op_multiply])
                   (start_world "2 + 3 * 4 =") =
                 Returned tt (mkWorld (mkIstream EmptyString true false)
                                ("20" ++ nl) EmptyString 1%float))
    by (vm_compute; reflexivity).
  exact (startCalculation_return_effects pow_unused put_whole _ _ _ _ Hrun).
Defined.


Lemma main_count_loop_end_of_input_witness :
  main_count_loop 7 None (start_world EmptyString) = OutOfFuel.
Proof. apply main_count_loop_end_of_input. reflexivity. Defined.

Lemma main_symbols_loop_valid_witness :
  length ("+" :: "V" :: replicate 14 EmptyString) = length (replicate 16 EmptyString) /\
  EmptyString = EmptyString /\
  d0 = d0 /\
  forall j, j < 2 ->
            exists sym, ("+" :: "V" :: replicate 14 EmptyString) !! j = Some sym /\
                        valid_symbol sym = true.
Proof.
  assert (Hrun : main_symbols_loop 2 2 (replicate 16 EmptyString)
                   (start_world ("+ x" ++ nl ++ "+ V" ++ nl)) =
                 Returned ("+" :: "V" :: replicate 14 EmptyString)
                   (mkWorld (input EmptyString) ("Invalid operator!" ++ nl)
                      EmptyString d0))
    by (vm_compute; reflexivity).
  exact (main_symbols_loop_valid _ _ _ _ _ _ Hrun).
Defined.

Lemma main_symbols_loop_end_of_input_witness :
  main_symbols_loop 5 3 (replicate 16 EmptyString) (start_world (" " ++ nl))
  = main_symbols_loop 4 3 (replicate 16 EmptyString)
      (mkWorld (input EmptyString) ("Invalid operator!" ++ nl) EmptyString d0) /\
  main_symbols_loop 4 3 (replicate 16 EmptyString)
    (mkWorld (input EmptyString) ("Invalid operator!" ++ nl) EmptyString d0)
  = OutOfFuel.
Proof.
  split; [vm_compute; reflexivity|].
  apply main_symbols_loop_end_of_input. reflexivity.
Defined.

Lemma main_batch_cut_short_witness :
  exists l' w1,
    main_batch (replicate 16 EmptyString) EmptyString 0 3 (start_world "+") =
      Returned (l', true) w1 /\
    cout w1 = EmptyString /\
    length l' = 16 /\
    (forall j, 0 <= j < 0 + 3 -> l' !! j = Some "+") /\
    (forall j, j < 0 -> l' !! j = replicate 16 EmptyString !! j).
Proof.
  refine (main_batch_cut_short (replicate 16 EmptyString) EmptyString "+" 0 2
            (start_world "+") (mkIstream EmptyString true false)
            eq_refl eq_refl eq_refl _).
  simpl. lia.
Defined.

Lemma main_run_reaches_menu_witness :
  main_run pow_unused put_whole 1 EmptyString 2
    ("+" :: "V" :: replicate 14 EmptyString) (start_world ("4" ++ nl))
  = Terminated (mkWorld (input ("4" ++ nl)) EmptyString
                  ("Invalid calculator name!" ++ nl) d0) /\
  exists c ol,
    constructed c /\ name c = Some "calc" /\ stored c = Some ol /\ length ol = 2 /\
    (forall k o, ol !! k = Some o ->
                 ("+" :: "V" :: replicate 14 EmptyString) !! k = Some (getSymbol o)) /\
    main_run pow_unused put_whole 1 "calc" 2
      ("+" :: "V" :: replicate 14 EmptyString) (start_world ("4" ++ nl))
    = main_menu_loop pow_unused put_whole 1 c (start_world ("4" ++ nl)).
Proof.
  assert (Hn : 2 <= MAX_OPERATORS) by (unfold MAX_OPERATORS; lia).
  assert (Hv : forall j, j < 2 ->
                 exists sym, ("+" :: "V" :: replicate 14 EmptyString) !! j = Some sym /\
                             valid_symbol sym = true).
  { intros [|[|j]] Hj; [eexists; split; reflexivity .. | lia]. }
  split.
  - exact (proj1 (main_run_reaches_menu pow_unused put_whole 1 EmptyString 2 _
                    (start_world ("4" ++ nl)) Hn Hv) eq_refl).
  - apply (proj2 (main_run_reaches_menu pow_unused put_whole 1 "calc" 2 _
                    (start_world ("4" ++ nl)) Hn Hv)).
    discriminate.
Defined.

Lemma main_menu_loop_turn_witness :
  main_menu_loop pow_unused put_whole 2 (calculator_of [op_add])
    (start_world ("abc" ++ nl ++ "4" ++ nl))
  = Returned tt
      (mkWorld (input nl)
         (menu_text ++ "Invalid option, try again." ++ nl ++ menu_text)
         EmptyString d0).
Proof.
  assert (Hx : extract_short None (cin (start_world ("abc" ++ nl ++ "4" ++ nl))) =
               (Some 0%Z, mkIstream ("abc" ++ nl ++ "4" ++ nl) false true))
    by (vm_compute; reflexivity).
  rewrite (proj2 (proj2 (main_menu_loop_turn pow_unused put_whole 1
                           (calculator_of [op_add]) _ 0%Z _ Hx))
             ltac:(discriminate) ltac:(discriminate) ltac:(discriminate)
             ltac:(discriminate)).
  vm_compute. reflexivity.
Defined.

Lemma main_menu_loop_end_of_input_witness :
  main_menu_loop pow_unused put_whole 1 (calculator_of [op_add])
    (start_world (" " ++ nl)) = UndefinedBehaviour.
Proof. apply main_menu_loop_end_of_input. reflexivity. Defined.

(** ** The zero tests, and an operator that is not stored *)

(** [x == 0] holds for the two zeros and for nothing else. *)
Lemma eqb_zero (x : double) :
  (x =? d0)%float = true <-> x = PrimFloat.zero \/ x = PrimFloat.neg_zero.
Proof.
  split.
  - rewrite FloatAxioms.eqb_spec. intros H.
    rewrite <- (SF2Prim_Prim2SF x).
    destruct (Prim2SF x) as [[|]| [|] | | [|] m e]; try discriminate H; auto.
  - intros [-> | ->]; reflexivity.
Qed.

Section ZeroStatements.

Variable pow : double -> double -> double.
Variable put_double : double -> string.

(** X18: the division fails exactly when the divisor is one of the two
    zeros, and the power exactly when both operands are; a NaN or an
    infinite operand never makes either fail. *)
Theorem zero_tests :
  forall a b : double,
    (DivideOperation_execute a b = Thrown "Cannot divide by zero!" <->
     b = PrimFloat.zero \/ b = PrimFloat.neg_zero) /\
    (DivideOperation_execute a b = Value (a / b)%float <->
     ~ (b = PrimFloat.zero \/ b = PrimFloat.neg_zero)) /\
    (PowerOperation_execute pow a b = Thrown "Cannot raise 0 to the power of 0!" <->
     (a = PrimFloat.zero \/ a = PrimFloat.neg_zero) /\
     (b = PrimFloat.zero \/ b = PrimFloat.neg_zero)).
Proof.
  intros a b. unfold DivideOperation_execute, PowerOperation_execute.
  pose proof (eqb_zero a) as Ha. pose proof (eqb_zero b) as Hb.
  destruct (b =? d0)%float.
  - assert (Hzb : b = PrimFloat.zero \/ b = PrimFloat.neg_zero)
      by (now apply Hb).
    split; [|split].
    + split; [intros _; exact Hzb | reflexivity].
    + split; [discriminate | intros H; now destruct (H Hzb)].
    + rewrite andb_true_r. destruct (a =? d0)%float.
      * split; [intros _; split; [now apply Ha | exact Hzb] | reflexivity].
      * split; [discriminate|].
        intros [H _]. apply Ha in H. discriminate H.
  - assert (Hnb : ~ (b = PrimFloat.zero \/ b = PrimFloat.neg_zero))
      by (intros H; apply Hb in H; discriminate H).
    split; [|split].
    + split; [discriminate | intros H; now destruct (Hnb H)].
    + split; [intros _; exact Hnb | reflexivity].
    + rewrite andb_false_r.
      split; [discriminate | intros [_ H]; now destruct (Hnb H)].
Qed.

Lemma evaluate_app (c : Calculator) (steps1 steps2 : list (string * double)) :
  forall n0 : double,
    evaluate pow c n0 (steps1 ++ steps2) =
      (r ← evaluate pow c n0 steps1; evaluate pow c r steps2).
Proof.
  induction steps1 as [|[op n] steps1 IH]; intros n0.
  - reflexivity.
  - change (((op, n) :: steps1) ++ steps2)%list with ((op, n) :: (steps1 ++ steps2))%list.
    rewrite !evaluate_cons.
    destruct (calculate pow c n0 n op) as [r| |]; simpl; [apply IH | reflexivity ..].
Qed.

(** X19: an operator that no stored operation has discards what was
    computed before it: the result of the expression is that of the steps
    after it, started from zero. *)
Theorem unmatched_operator_resets :
  forall (c : Calculator) (l : list Operation) (w : world) (n0 n r1 r : double)
         (op : string) (steps1 steps2 : list (string * double)) (s' : istream)
         (extra : nat),
    stored c = Some l ->
    first_match l op = None ->
    evaluate pow c n0 steps1 = Value r1 ->
    evaluate pow c d0 steps2 = Value r ->
    reads_expression (cin w) n0 (steps1 ++ (op, n) :: steps2) s' ->
    startCalculation pow put_double
      (S (length (steps1 ++ (op, n) :: steps2) + extra)) c w =
      Returned tt (mkWorld s' (cout w ++ put_double r ++ nl) (cerr w)
                     (numberOfSuccessfulCalculations w + d1)%float).
Proof.
  intros c l w n0 n r1 r op steps1 steps2 s' extra Hl Hm H1 H2 Hread.
  apply (startCalculation_returns pow put_double c w n0 r _ s' extra Hread).
  rewrite evaluate_app, H1. simpl. rewrite evaluate_cons.
  rewrite (calculate_first_match pow c l r1 n op Hl), Hm. simpl. exact H2.
Qed.

End ZeroStatements.

Lemma zero_tests_witness :
  DivideOperation_execute 1%float PrimFloat.neg_zero = Thrown "Cannot divide by zero!".
Proof.
  apply (proj2 (proj1 (zero_tests pow_unused 1%float PrimFloat.neg_zero))).
  now right.
Defined.

Lemma unmatched_operator_resets_witness :
  startCalculation pow_unused put_whole 4 (calculator_of [op_add])
    (start_world "5 + 3 x 2 + 1 =") =
  Returned tt (mkWorld (mkIstream EmptyString true false)
                 (EmptyString ++ put_whole 1%float ++ nl) EmptyString
                 (d0 + d1)%float).
Proof.
  refine (unmatched_operator_resets pow_unused put_whole
            (calculator_of [op_add]) [op_add] (start_world "5 + 3 x 2 + 1 =")
            5%float 2%float 8%float 1%float "x"
            [("+", 3%float)] [("+", 1%float)]
            (mkIstream EmptyString true false) 0
            eq_refl eq_refl eq_refl eq_refl _).
  read_expression.
Defined.


(** ** Leaving the loop that reads the symbols *)

(** What [cin.clear(); cin.ignore(...)] make of a world. *)
Lemma discard_steps {A} (k : proc A) (w : world) :
  (on_cin clear ;; on_cin ignore ;; k) w = k (set_cin (ignore (clear (cin w))) w).
Proof. reflexivity. Qed.

(** Rejected batches followed by an accepted one. *)
Lemma main_symbols_loop_accepts (k n : nat) (l l0 : list string) (w w0 : world) :
  rejected_batches k n l w l0 w0 ->
  forall (l' : list string) (w1 : world) (extra : nat),
    main_batch l0 EmptyString 0 n w0 = Returned (l', true) w1 ->
    main_symbols_loop (S (k + extra)) n l w =
      Returned l' (set_cin (ignore (clear (cin w1))) w1).
Proof.
  induction 1 as [n l w | k n l w l1 w1 s' l0 w0 Hb Hl _ IH]; intros l' w2 extra Hok.
  - cbn [main_symbols_loop]. rewrite (bind_Returned _ _ _ _ _ Hok).
    cbv beta iota. now rewrite discard_steps.
  - change (S (S k + extra)) with (S (S (k + extra))).
    cbn [main_symbols_loop]. rewrite (bind_Returned _ _ _ _ _ Hb).
    cbv beta iota. rewrite discard_steps.
    rewrite (next_line_unique _ _ _ (next_line_ignore_clear (cin w1)) Hl).
    exact (IH l' w2 extra Hok).
Qed.

Section MainStatements.

Variable pow : double -> double -> double.
Variable put_double : double -> string.

(** C10: whenever a batch of symbols has been read with every symbol
    valid, in the first turn of the loop or after any number of rejected
    batches, the loop is left in the stream that has the state flags
    cleared and the rest of the current line dropped, and it is left in no
    other way. The rest of [main], the construction and the menu, runs on
    that stream: what stood on the line after the last symbol is read
    neither by the menu nor by a calculation. *)
Theorem main_symbols_discard_line :
  (forall (fuel n : nat) (l l' : list string) (w w1 : world),
     main_batch l EmptyString 0 n w = Returned (l', true) w1 ->
     exists s',
       next_line (cin w1) s' /\
       main_symbols_loop (S fuel) n l w = Returned l' (set_cin s' w1)) /\
  (forall (k extra : nat) (calculatorName : string) (n : nat) (w w0 w1 : world)
          (l0 l' : list string),
     rejected_batches k n (replicate MAX_OPERATORS EmptyString)
       (printed legend_text w) l0 w0 ->
     main_batch l0 EmptyString 0 n w0 = Returned (l', true) w1 ->
     exists s',
       next_line (cin w1) s' /\
       main_configured pow put_double (S (k + extra)) calculatorName n w =
         main_run pow put_double (S (k + extra)) calculatorName n l'
           (set_cin s' w1)) /\
  (forall (fuel n : nat) (l l' : list string) (w w' : world),
     main_symbols_loop fuel n l w = Returned l' w' ->
     exists k l0 w0 w1,
       k < fuel /\
       rejected_batches k n l w l0 w0 /\
       main_batch l0 EmptyString 0 n w0 = Returned (l', true) w1 /\
       next_line (cin w1) (cin w') /\
       w' = set_cin (cin w') w1).
Proof.
  split; [|split].
  - intros fuel n l l' w w1 Hb. exists (ignore (clear (cin w1))).
    split; [apply next_line_ignore_clear|].
    exact (main_symbols_loop_accepts 0 n l l w w (rejected_batches_none n l w)
             l' w1 fuel Hb).
  - intros k extra calculatorName n w w0 w1 l0 l' Hr Hb.
    exists (ignore (clear (cin w1))). split; [apply next_line_ignore_clear|].
    unfold main_configured.
    rewrite (bind_Returned _ _ _ _ _ (main_legend_printed w)).
    now rewrite (bind_Returned _ _ _ _ _
                   (main_symbols_loop_accepts k n _ l0 _ w0 Hr l' w1 extra Hb)).
  - induction fuel as [|fuel IH]; intros n l l' w w' H; [discriminate|].
    cbn [main_symbols_loop] in H.
    apply bind_Returned_inv in H as ([l1 valid] & w1 & Hb & H).
    rewrite discard_steps in H. destruct valid.
    + injection H as <- <-. exists 0, l, w, w1.
      split; [lia|]. split; [constructor|]. split; [exact Hb|].
      split; [apply next_line_ignore_clear | reflexivity].
    + apply IH in H as (k & l0 & w0 & w2 & Hk & Hr & Hrest).
      exists (S k), l0, w0, w2. split; [lia|]. split; [|exact Hrest].
      exact (rejected_batches_retry k n l w l1 w1 _ l0 w0 Hb
               (next_line_ignore_clear (cin w1)) Hr).
Qed.

End MainStatements.

Lemma main_symbols_discard_line_witness :
  main_configured pow_unused put_whole 2 "calc" 2
    (start_world (nl ++ "+ x" ++ nl ++ "+ - 3 10 + 5 =" ++ nl ++ "4" ++ nl)) =
  main_run pow_unused put_whole 2 "calc" 2
    ("+" :: "-" :: replicate 14 EmptyString)
    (mkWorld (input ("4" ++ nl)) (legend_text ++ "Invalid operator!" ++ nl)
       EmptyString d0).
Proof.
  pose (w := start_world (nl ++ "+ x" ++ nl ++ "+ - 3 10 + 5 =" ++ nl ++ "4" ++ nl)).
  pose (w1 := mkWorld (input (nl ++ "+ - 3 10 + 5 =" ++ nl ++ "4" ++ nl))
                (legend_text ++ "Invalid operator!" ++ nl) EmptyString d0).
  pose (w2 := mkWorld (input ("+ - 3 10 + 5 =" ++ nl ++ "4" ++ nl))
                (legend_text ++ "Invalid operator!" ++ nl) EmptyString d0).
  pose (w3 := mkWorld (input (" 3 10 + 5 =" ++ nl ++ "4" ++ nl))
                (legend_text ++ "Invalid operator!" ++ nl) EmptyString d0).
  pose (l1 := "+" :: replicate 15 EmptyString).
  pose (l2 := "+" :: "-" :: replicate 14 EmptyString).
  assert (Hb1 : main_batch (replicate MAX_OPERATORS EmptyString) EmptyString 0 2
                  (printed legend_text w) = Returned (l1, false) w1)
    by (vm_compute; reflexivity).
  assert (Hb2 : main_batch l1 EmptyString 0 2 w2 = Returned (l2, true) w3)
    by (vm_compute; reflexivity).
  assert (Hline1 : next_line (cin w1) (cin w2)).
  { split; [reflexivity|]. left. exists EmptyString. now repeat split. }
  assert (Hline3 : next_line (cin w3) (input ("4" ++ nl))).
  { split; [reflexivity|]. left. exists " 3 10 + 5 =". now repeat split. }
  assert (Hr : rejected_batches 1 2 (replicate MAX_OPERATORS EmptyString)
                 (printed legend_text w) l1 w2).
  { apply (rejected_batches_retry 0 2 _ _ l1 w1 (cin w2) l1 w2 Hb1 Hline1).
    change (rejected_batches 0 2 l1 w2 l1 w2). apply rejected_batches_none. }
  destruct (proj1 (proj2 (main_symbols_discard_line pow_unused put_whole))
              1 0 "calc" 2 w w2 w3 l1 l2 Hr Hb2) as (s' & Hs' & Hrun).
  rewrite (next_line_unique _ _ _ Hline3 Hs'). exact Hrun.
Defined.

(** ** Objects in memory *)

Lemma Memory_object_at_Value (this : nat) (m : Memory.store) (o : Memory.object) :
  Memory.object_at this m = Value o <-> Memory.objects m !! this = Some (Some o).
Proof.
  unfold Memory.object_at.
  destruct (Memory.objects m !! this) as [[o'|]|]; split; intros H;
    try discriminate H; congruence.
Qed.

Lemma Memory_text_at_Some (p : Memory.pointer) (m : Memory.store) (str : string) :
  Memory.text_at p m = Value (Some str) <->
  exists a, p = Some a /\ Memory.arrays m !! a = Some (Some str).
Proof.
  split.
  - unfold Memory.text_at. destruct p as [a|]; [|discriminate].
    destruct (Memory.arrays m !! a) as [[text|]|] eqn:E; try discriminate.
    intros [= ->]. exists a. split; [reflexivity | exact E].
  - intros (a & -> & H). unfold Memory.text_at. now rewrite H.
Qed.

(** [copyFrom] on an object is [copyFrom] on the text its pointer refers
    to, and it keeps the pointer. *)
Lemma Memory_copyFrom_Value (p : Memory.pointer) (n capacity : nat) (ops : op_array)
    (m : Memory.store) (o : Memory.object) :
  Memory.copyFrom p n capacity ops m = Value o ->
  exists text c,
    Memory.text_at p m = Value text /\
    copyFrom text n capacity ops = Value c /\
    o = Memory.mkObject p n capacity (operations c).
Proof.
  unfold Memory.copyFrom, Memory.assertValidity, copyFrom.
  destruct (copy_slots ops (replicate capacity None) 0 n) as [slots| |];
    simpl; try discriminate.
  destruct (Memory.text_at p m) as [text| |]; simpl; try discriminate.
  destruct (assertValidity text capacity) as [[]| |] eqn:Ha; simpl; try discriminate.
  intros [= <-]. exists text, (mkCalculator text n capacity slots).
  split; [reflexivity|]. split; [|reflexivity].
  simpl. rewrite Ha. reflexivity.
Qed.

(** A constructor that returned was given a live array with a text that
    is not empty. *)
Lemma Memory_copyFrom_live (p : Memory.pointer) (n capacity : nat) (ops : op_array)
    (m : Memory.store) (o : Memory.object) :
  Memory.copyFrom p n capacity ops m = Value o ->
  exists a str, p = Some a /\ Memory.arrays m !! a = Some (Some str).
Proof.
  intros H. apply Memory_copyFrom_Value in H as (text & c & Ht & Hc & _).
  apply copyFrom_Value in Hc as (Hn & _ & _ & _ & [(str & Hs & _) _ _]).
  rewrite Hn in Hs. rewrite Hs in Ht.
  apply Memory_text_at_Some in Ht as (a & -> & Ha). eauto.
Qed.

(** Once the array of the name is deleted, [copyFrom] is undefined where
    it returned before. *)
Lemma Memory_copyFrom_deleted (a n capacity : nat) (ops : op_array)
    (m m' : Memory.store) (o : Memory.object) :
  Memory.copyFrom (Some a) n capacity ops m = Value o ->
  Memory.text_at (Some a) m' = Undefined ->
  Memory.copyFrom (Some a) n capacity ops m' = Undefined.
Proof.
  unfold Memory.copyFrom, Memory.assertValidity. intros H Ht.
  destruct (copy_slots ops (replicate capacity None) 0 n); simpl in *;
    try discriminate. now rewrite Ht.
Qed.

Lemma Memory_delete_array_live (a : nat) (arrs : list (option string))
    (objs : list (option Memory.object)) (str : string) :
  arrs !! a = Some (Some str) ->
  Memory.delete_array (Some a) (Memory.mkStore arrs objs) =
    Value (Memory.mkStore (<[a := None]> arrs) objs) /\
  forall objs',
    Memory.text_at (Some a) (Memory.mkStore (<[a := None]> arrs) objs') = Undefined.
Proof.
  intros H. split.
  - unfold Memory.delete_array. simpl. now rewrite H.
  - intros objs'. unfold Memory.text_at. simpl.
    rewrite list_lookup_insert_eq by (eapply lookup_lt_Some; exact H). reflexivity.
Qed.

(** [delete[]] leaves the objects alone and revives no array. *)
Lemma Memory_delete_array_Value (p : Memory.pointer) (m m1 : Memory.store) :
  Memory.delete_array p m = Value m1 ->
  Memory.objects m1 = Memory.objects m /\
  forall q text, Memory.text_at q m1 = Value text -> Memory.text_at q m = Value text.
Proof.
  unfold Memory.delete_array. destruct p as [a|]; [|now intros [= <-]].
  destruct (Memory.arrays m !! a) as [[str|]|] eqn:E; try discriminate.
  intros [= <-]. split; [reflexivity|]. intros [b|] text; [|auto].
  unfold Memory.text_at. simpl. destruct (decide (a = b)) as [->|Hne].
  - rewrite list_lookup_insert_eq by (eapply lookup_lt_Some; exact E). discriminate.
  - now rewrite list_lookup_insert_ne.
Qed.

(** The members of an object depend on its slot and on the arrays. *)
Lemma Memory_members_frame (this : nat) (m m' : Memory.store) :
  Memory.objects m' !! this = Memory.objects m !! this ->
  Memory.arrays m' = Memory.arrays m ->
  Memory.members this m' = Memory.members this m.
Proof.
  intros Ho Ha. unfold Memory.members, Memory.object_at, Memory.text_at.
  now rewrite Ho, Ha.
Qed.

Lemma Memory_members_Value (this : nat) (m : Memory.store) (c : Calculator) :
  Memory.members this m = Value c ->
  exists o,
    Memory.object_at this m = Value o /\
    Memory.text_at (Memory.name o) m = Value (name c) /\
    c = mkCalculator (name c) (Memory.numberOfSupportedOperations o)
          (Memory.capacityForOperations o) (Memory.operations o).
Proof.
  unfold Memory.members.
  destruct (Memory.object_at this m) as [o| |]; simpl; try discriminate.
  destruct (Memory.text_at (Memory.name o) m) as [text| |] eqn:Ht;
    simpl; try discriminate.
  intros [= <-]. exists o. simpl.
  split; [reflexivity|]. split; [exact Ht | reflexivity].
Qed.

(** A new object leaves the others as they are. *)
Lemma Memory_place_holds (o : Memory.object) (m : Memory.store) (b : nat) :
  Memory.holds b m -> Memory.holds b (Memory.place o m).2.
Proof.
  intros (c & Hc & Hinv). exists c. split; [|exact Hinv].
  rewrite <- Hc. apply Memory_members_frame; [|reflexivity]. simpl.
  apply Memory_members_Value in Hc as (ob & Hob & _).
  apply Memory_object_at_Value in Hob.
  apply lookup_app_l. eapply lookup_lt_Some. exact Hob.
Qed.

(** The members of a new object built by [copyFrom]. *)
Lemma Memory_place_members (p : Memory.pointer) (n capacity : nat) (ops : op_array)
    (m : Memory.store) (o : Memory.object) :
  Memory.copyFrom p n capacity ops m = Value o ->
  exists text c,
    Memory.text_at p m = Value text /\
    copyFrom text n capacity ops = Value c /\
    Memory.members (Memory.place o m).1 (Memory.place o m).2 = Value c.
Proof.
  intros H. apply Memory_copyFrom_Value in H as (text & c & Ht & Hc & ->).
  exists text, c. split; [exact Ht|]. split; [exact Hc|].
  unfold Memory.members, Memory.object_at, Memory.place. simpl.
  rewrite list_lookup_middle by reflexivity. simpl.
  change (Memory.text_at p (Memory.mkStore (Memory.arrays m)
            (Memory.objects m ++ [Some (Memory.mkObject p n capacity (operations c))])))
    with (Memory.text_at p m).
  rewrite Ht. simpl.
  apply copyFrom_Value in Hc as (Hn & Hk & Hcap & _ & _).
  destruct c as [nm k cap slots]. simpl in *. now subst.
Qed.

Lemma Memory_Calculator_new_Value (p : Memory.pointer) (n : nat) (ops : op_array)
    (m m' : Memory.store) (a : nat) :
  Memory.Calculator_new p n ops m = Value (a, m') ->
  exists o,
    Memory.copyFrom p n MAX_OPERATORS ops m = Value o /\
    a = length (Memory.objects m) /\
    m' = Memory.mkStore (Memory.arrays m) (Memory.objects m ++ [Some o])%list.
Proof.
  unfold Memory.Calculator_new.
  destruct (Memory.copyFrom p n MAX_OPERATORS ops m) as [o| |]; simpl;
    try discriminate.
  intros [= <- <-]. exists o. auto.
Qed.

Lemma Memory_Calculator_copy_Value (other : nat) (m m' : Memory.store) (a : nat) :
  Memory.Calculator_copy other m = Value (a, m') ->
  exists o c,
    Memory.object_at other m = Value o /\
    Memory.copyFrom (Memory.name o) (Memory.numberOfSupportedOperations o)
      (Memory.capacityForOperations o) (Memory.operations o) m = Value c /\
    a = length (Memory.objects m) /\
    m' = Memory.mkStore (Memory.arrays m) (Memory.objects m ++ [Some c])%list.
Proof.
  unfold Memory.Calculator_copy.
  destruct (Memory.object_at other m) as [o| |]; simpl; try discriminate.
  destruct (Memory.copyFrom _ _ _ _ m) as [c| |] eqn:Hc; simpl; try discriminate.
  intros [= <- <-]. exists o, c. auto.
Qed.

(** The object a constructor placed satisfies the invariant. *)
Lemma Memory_place_invariant (p : Memory.pointer) (n capacity : nat) (ops : op_array)
    (m : Memory.store) (o : Memory.object) :
  Memory.copyFrom p n capacity ops m = Value o ->
  exists text c,
    Memory.text_at p m = Value text /\
    copyFrom text n capacity ops = Value c /\
    Memory.members (length (Memory.objects m))
      (Memory.mkStore (Memory.arrays m) (Memory.objects m ++ [Some o])%list) = Value c /\
    invariant c /\ capacityForOperations c = capacity.
Proof.
  intros H. destruct (Memory_place_members _ _ _ _ _ _ H) as (text & c & Ht & Hc & Hm).
  exists text, c. split; [exact Ht|]. split; [exact Hc|]. split; [exact Hm|].
  apply copyFrom_Value in Hc. tauto.
Qed.

(** A copy shares the array of the name with its original: what holds in
    the store after the copy was placed. *)
Lemma Memory_copy_shares (other : nat) (m m1 : Memory.store) (b : nat) :
  Memory.Calculator_copy other m = Value (b, m1) ->
  exists o c a str,
    Memory.objects m !! other = Some (Some o) /\
    Memory.name o = Some a /\ Memory.name c = Some a /\
    Memory.arrays m !! a = Some (Some str) /\
    Memory.copyFrom (Some a) (Memory.numberOfSupportedOperations o)
      (Memory.capacityForOperations o) (Memory.operations o) m = Value c /\
    b = length (Memory.objects m) /\ other < b /\
    m1 = Memory.mkStore (Memory.arrays m) (Memory.objects m ++ [Some c])%list.
Proof.
  intros H. apply Memory_Calculator_copy_Value in H as (o & c & Ho & Hc & Hb & Hm).
  subst b m1. destruct (Memory_copyFrom_live _ _ _ _ _ _ Hc) as (a & str & Hp & Ha).
  apply Memory_object_at_Value in Ho.
  exists o, c, a, str. rewrite Hp in Hc.
  split; [exact Ho|]. split; [exact Hp|].
  split; [destruct (Memory_copyFrom_Value _ _ _ _ _ _ Hc) as (? & ? & _ & _ & Heq);
          rewrite Heq; reflexivity|].
  split; [exact Ha|]. split; [exact Hc|]. split; [reflexivity|].
  split; [eapply lookup_lt_Some; exact Ho | reflexivity].
Qed.

(** [operator=] that returns leaves both objects with the invariant. *)
Lemma Memory_assign_holds (this other : nat) (m m' : Memory.store) :
  Memory.holds other m ->
  Memory.assign this other m = Value m' ->
  Memory.holds this m' /\ Memory.holds other m'.
Proof.
  intros Hother. unfold Memory.assign.
  destruct (Nat.eqb_spec this other) as [->|Hne]; [now intros [= <-]|].
  destruct (Memory.object_at this m) as [t| |] eqn:Ht; simpl; try discriminate.
  destruct (Memory.object_at other m) as [o| |] eqn:Ho; simpl; try discriminate.
  destruct (Memory.delete_array (Memory.name t) m) as [m1| |] eqn:Hd;
    simpl; try discriminate.
  destruct (Memory.copyFrom _ _ _ _ m1) as [c| |] eqn:Hc; simpl; try discriminate.
  intros [= <-].
  apply Memory_delete_array_Value in Hd as [Hobj Hlive].
  apply Memory_object_at_Value in Ht, Ho.
  destruct (Memory_copyFrom_Value _ _ _ _ _ _ Hc) as (text & cv & Htext & Hcv & ->).
  pose proof (copyFrom_Value _ _ _ _ _ Hcv) as (Hn & Hk & Hcap & _ & Hinv).
  assert (Hthis : this < length (Memory.objects m1))
    by (rewrite Hobj; eapply lookup_lt_Some; exact Ht).
  split.
  - exists cv. split; [|exact Hinv].
    unfold Memory.members, Memory.object_at, Memory.replace. simpl.
    rewrite list_lookup_insert_eq by exact Hthis. simpl.
    change (Memory.text_at (Memory.name o) (Memory.mkStore (Memory.arrays m1) _))
      with (Memory.text_at (Memory.name o) m1).
    rewrite Htext. simpl. destruct cv as [nm k cap slots]. simpl in *. now subst.
  - destruct Hother as (c0 & Hc0 & Hinv0). exists c0. split; [|exact Hinv0].
    destruct (Memory_members_Value _ _ _ Hc0) as (o' & Ho' & Ht0 & Hc0').
    apply Memory_object_at_Value in Ho'. rewrite Ho in Ho'. injection Ho' as <-.
    apply Hlive in Htext. rewrite Htext in Ht0. injection Ht0 as Ht0.
    unfold Memory.members, Memory.object_at, Memory.replace. simpl.
    rewrite list_lookup_insert_ne by exact Hne. rewrite Hobj, Ho. simpl.
    change (Memory.text_at (Memory.name o) (Memory.mkStore (Memory.arrays m1) _))
      with (Memory.text_at (Memory.name o) m1).
    destruct (Memory_copyFrom_Value _ _ _ _ _ _ Hc) as (text' & _ & Htext' & _).
    rewrite Htext'. simpl. rewrite Hc0'. f_equal. f_equal.
    apply Hlive in Htext'. rewrite Htext in Htext'. injection Htext' as <-.
    exact Ht0.
Qed.

(** The statements of [addOperation] keep the invariant of every object. *)
Lemma Memory_addOperation_append_holds (op : Operation) (this : nat)
    (m m' : Memory.store) :
  Memory.addOperation_append op this m = Value m' ->
  forall b, Memory.holds b m -> Memory.holds b m'.
Proof.
  unfold Memory.addOperation_append.
  destruct (Memory.object_at this m) as [t| |] eqn:Ht; simpl; try discriminate.
  destruct (Nat.eqb_spec (Memory.numberOfSupportedOperations t)
              (Memory.capacityForOperations t)) as [He|Hne]; simpl; try discriminate.
  destruct (createNew op) as [clone| |]; simpl; try discriminate.
  destruct (write_slot _ _ clone) as [slots| |]; simpl; try discriminate.
  intros [= <-] b (c & Hc & Hinv).
  apply Memory_object_at_Value in Ht.
  destruct (decide (b = this)) as [->|Hb].
  - destruct (Memory_members_Value _ _ _ Hc) as (o & Ho & Htext & Hceq).
    apply Memory_object_at_Value in Ho. rewrite Ht in Ho. injection Ho as <-.
    exists (mkCalculator (name c) (S (Memory.numberOfSupportedOperations t))
              (Memory.capacityForOperations t) slots).
    split.
    + unfold Memory.members, Memory.object_at, Memory.replace. simpl.
      rewrite list_lookup_insert_eq by (eapply lookup_lt_Some; exact Ht). simpl.
      change (Memory.text_at (Memory.name t) (Memory.mkStore (Memory.arrays m) _))
        with (Memory.text_at (Memory.name t) m).
      now rewrite Htext.
    + destruct Hinv as [Hname Hcap Hcount]. rewrite Hceq in Hcap, Hcount.
      simpl in Hcap, Hcount. split; simpl; [exact Hname | exact Hcap | lia].
  - exists c. split; [|exact Hinv]. rewrite <- Hc.
    apply Memory_members_frame; [|reflexivity]. simpl.
    apply list_lookup_insert_ne. congruence.
Qed.

(** The destructor of a copy deletes the array its original still points
    to, and so does the assignment of the original to the copy. *)
Lemma Memory_copy_breaks (other : nat) (m m1 : Memory.store) (b : nat) :
  Memory.Calculator_copy other m = Value (b, m1) ->
  (exists m2 o,
     Memory.destroy b m1 = Value m2 /\
     Memory.object_at other m2 = Value o /\
     Memory.members other m2 = Undefined /\
     ~ Memory.holds other m2 /\
     Memory.Calculator_copy other m2 = Undefined /\
     Memory.destroy other m2 = Undefined) /\
  Memory.assign b other m1 = Undefined.
Proof.
  intros H.
  apply Memory_copy_shares in H
    as (o & c & a & str & Ho & Hno & Hnc & Ha & Hc & -> & Hlt & ->).
  destruct (Memory_delete_array_live a (Memory.arrays m)
              (Memory.objects m ++ [Some c])%list str Ha) as [Hdel Hgone].
  assert (Hat_b : Memory.object_at (length (Memory.objects m))
                    (Memory.mkStore (Memory.arrays m) (Memory.objects m ++ [Some c])%list)
                  = Value c).
  { unfold Memory.object_at. simpl. now rewrite list_lookup_middle. }
  assert (Hat_o : forall arrs,
             Memory.object_at other
               (Memory.mkStore arrs
                  (<[length (Memory.objects m) := None]> (Memory.objects m ++ [Some c])%list))
             = Value o).
  { intros arrs. unfold Memory.object_at. simpl.
    rewrite list_lookup_insert_ne by lia. rewrite lookup_app_l by exact Hlt.
    now rewrite Ho. }
  split.
  - eexists. exists o. split.
    + unfold Memory.destroy. rewrite Hat_b. simpl. rewrite Hnc, Hdel. simpl.
      unfold Memory.replace. simpl. reflexivity.
    + split; [apply Hat_o|].
      assert (Hmem : Memory.members other
                       (Memory.mkStore (<[a := None]> (Memory.arrays m))
                          (<[length (Memory.objects m) := None]>
                             (Memory.objects m ++ [Some c])%list)) = Undefined).
      { unfold Memory.members. rewrite Hat_o. simpl. rewrite Hno.
        now rewrite Hgone. }
      split; [exact Hmem|]. split.
      * intros (c' & Hc' & _). rewrite Hmem in Hc'. discriminate.
      * split.
        -- unfold Memory.Calculator_copy. rewrite Hat_o. simpl. rewrite Hno.
           now rewrite (Memory_copyFrom_deleted _ _ _ _ _ _ _ Hc (Hgone _)).
        -- unfold Memory.destroy. rewrite Hat_o. simpl. rewrite Hno.
           unfold Memory.delete_array. simpl.
           rewrite list_lookup_insert_eq by (eapply lookup_lt_Some; exact Ha).
           reflexivity.
  - unfold Memory.assign.
    destruct (Nat.eqb_spec (length (Memory.objects m)) other) as [He|_]; [lia|].
    rewrite Hat_b. simpl.
    assert (Hat_o' : Memory.object_at other
                       (Memory.mkStore (Memory.arrays m) (Memory.objects m ++ [Some c])%list)
                     = Value o).
    { unfold Memory.object_at. simpl. rewrite lookup_app_l by exact Hlt.
      now rewrite Ho. }
    rewrite Hat_o'. simpl. rewrite Hnc, Hdel. simpl. rewrite Hno.
    now rewrite (Memory_copyFrom_deleted _ _ _ _ _ _ _ Hc (Hgone _)).
Qed.

(** The statements of [main] after the menu loop delete the array of the
    name twice. *)
Lemma Memory_main_exit_undefined (p : Memory.pointer) (n : nat) (ops : op_array)
    (m m1 : Memory.store) (calc : nat) :
  Memory.Calculator_new p n ops m = Value (calc, m1) ->
  Memory.main_exit p calc m1 = Undefined.
Proof.
  intros H. apply Memory_Calculator_new_Value in H as (o & Hc & -> & ->).
  destruct (Memory_copyFrom_live _ _ _ _ _ _ Hc) as (a & str & -> & Ha).
  destruct (Memory_copyFrom_Value _ _ _ _ _ _ Hc) as (_ & cv & _ & _ & ->).
  destruct (Memory_delete_array_live a (Memory.arrays m)
              (Memory.objects m ++
                 [Some (Memory.mkObject (Some a) n MAX_OPERATORS (operations cv))])%list
              str Ha) as [Hdel _].
  unfold Memory.main_exit. rewrite Hdel. simpl.
  unfold Memory.destroy, Memory.object_at. simpl.
  rewrite list_lookup_middle by reflexivity. simpl.
  unfold Memory.delete_array. simpl.
  rewrite list_lookup_insert_eq by (eapply lookup_lt_Some; exact Ha).
  reflexivity.
Qed.

(** C7: an object built by the parameterized constructor or the copy
    constructor, or assigned to by [operator=], satisfies the invariant
    when the call returns: its name is not empty, its capacity is positive
    and it holds at most as many operations as its capacity, which is
    [MAX_OPERATORS] after the parameterized constructor; the statements of
    [addOperation] keep the invariant, and the constructors keep that of
    every other object. (The default constructor never returns; the
    member functions that use the console assign to no member.) But the
    name is a pointer that [copyFrom] shares and that the destructor and
    [operator=] delete. After a copy, destroying the copy leaves the
    original in existence with its name deleted, so the original does not
    satisfy the invariant any more and copying or destroying it is
    undefined; assigning the original to the copy is undefined; and the
    statements of [main] after the menu loop, which delete
    [calculatorName] and then the calculator built from it, are undefined
    whenever the constructor returned. *)
Theorem Calculator_invariant_shared_name :
  (forall (p : Memory.pointer) (n : nat) (ops : op_array) (m m' : Memory.store)
          (a : nat),
     Memory.Calculator_new p n ops m = Value (a, m') ->
     (exists text c,
        Memory.text_at p m = Value text /\
        Calculator_new text n ops = Value c /\
        Memory.members a m' = Value c /\
        invariant c /\ capacityForOperations c = MAX_OPERATORS) /\
     forall b, Memory.holds b m -> Memory.holds b m') /\
  (forall (other : nat) (m m' : Memory.store) (a : nat),
     Memory.Calculator_copy other m = Value (a, m') ->
     Memory.holds a m' /\ forall b, Memory.holds b m -> Memory.holds b m') /\
  (forall (this other : nat) (m m' : Memory.store),
     Memory.holds other m ->
     Memory.assign this other m = Value m' ->
     Memory.holds this m' /\ Memory.holds other m') /\
  (forall (op : Operation) (this : nat) (m m' : Memory.store),
     Memory.addOperation_append op this m = Value m' ->
     forall b, Memory.holds b m -> Memory.holds b m') /\
  (forall (other : nat) (m m1 : Memory.store) (b : nat),
     Memory.holds other m ->
     Memory.Calculator_copy other m = Value (b, m1) ->
     Memory.holds other m1 /\
     (exists m2 o,
        Memory.destroy b m1 = Value m2 /\
        Memory.object_at other m2 = Value o /\
        Memory.members other m2 = Undefined /\
        ~ Memory.holds other m2 /\
        Memory.Calculator_copy other m2 = Undefined /\
        Memory.destroy other m2 = Undefined) /\
     Memory.assign b other m1 = Undefined) /\
  (forall (p : Memory.pointer) (n : nat) (ops : op_array) (m m1 : Memory.store)
          (calc : nat),
     Memory.Calculator_new p n ops m = Value (calc, m1) ->
     Memory.holds calc m1 /\ Memory.main_exit p calc m1 = Undefined).
Proof.
  assert (Hnew : forall p n ops m m' a,
             Memory.Calculator_new p n ops m = Value (a, m') ->
             exists text c,
               Memory.text_at p m = Value text /\
               Calculator_new text n ops = Value c /\
               Memory.members a m' = Value c /\
               invariant c /\ capacityForOperations c = MAX_OPERATORS).
  { intros p n ops m m' a H.
    apply Memory_Calculator_new_Value in H as (o & Hc & -> & ->).
    exact (Memory_place_invariant _ _ _ _ _ _ Hc). }
  assert (Hcopy : forall other m m' a,
             Memory.Calculator_copy other m = Value (a, m') ->
             Memory.holds a m' /\ forall b, Memory.holds b m -> Memory.holds b m').
  { intros other m m' a H.
    apply Memory_Calculator_copy_Value in H as (o & c & _ & Hc & -> & ->). split.
    - destruct (Memory_place_invariant _ _ _ _ _ _ Hc)
        as (text & cv & _ & _ & Hm & Hinv & _).
      exists cv. auto.
    - intros b. apply (Memory_place_holds c m b). }
  split; [|split; [|split; [|split; [|split]]]].
  - intros p n ops m m' a H. split; [exact (Hnew _ _ _ _ _ _ H)|].
    apply Memory_Calculator_new_Value in H as (o & _ & -> & ->).
    intros b. apply (Memory_place_holds o m b).
  - exact Hcopy.
  - intros this other m m'. apply Memory_assign_holds.
  - intros op this m m'. apply Memory_addOperation_append_holds.
  - intros other m m1 b Hother H.
    split; [exact (proj2 (Hcopy _ _ _ _ H) other Hother)|].
    exact (Memory_copy_breaks other m m1 b H).
  - intros p n ops m m1 calc H. split.
    + destruct (Hnew _ _ _ _ _ _ H) as (text & c & _ & _ & Hm & Hinv & _).
      exists c. auto.
    + exact (Memory_main_exit_undefined p n ops m m1 calc H).
Qed.

Lemma Calculator_invariant_shared_name_witness :
  exists (calc : nat) (m1 : Memory.store),
    Memory.Calculator_new (Memory.new_array "calc" Memory.empty).1 1
      (Some op_add :: replicate 15 None)
      (Memory.new_array "calc" Memory.empty).2 = Value (calc, m1) /\
    Memory.holds calc m1 /\
    Memory.main_exit (Memory.new_array "calc" Memory.empty).1 calc m1 = Undefined.
Proof.
  assert (Hnew : Memory.Calculator_new (Memory.new_array "calc" Memory.empty).1 1
                   (Some op_add :: replicate 15 None)
                   (Memory.new_array "calc" Memory.empty).2 =
                 Value (0, Memory.mkStore [Some "calc"]
                             [Some (Memory.mkObject (Some 0) 1 MAX_OPERATORS
                                      (Some op_add :: replicate 15 None))]))
    by reflexivity.
  eexists. eexists. split; [exact Hnew|].
  exact (proj2 (proj2 (proj2 (proj2 (proj2 Calculator_invariant_shared_name))))
           _ _ _ _ _ _ Hnew).
Defined.
